(** * Story resolution and synthesis (mediawords/tm/stories.py)

    A shallow embedding of the topic-mapper story module: the preferred-story
    selector, the redirect policy, the story matcher, the date-guess tag
    classifier and the story synthesizer, together with the properties the
    specification states about them.

    Python [str] values are embedded as [string]; a character is a code point
    below 256.  Rows returned by the database handler are records.  The
    database is a record of tables, each table a list of rows in scan order. *)

From Stdlib Require Import List ZArith Bool Lia String Ascii Arith.
Import ListNotations.

Local Open Scope string_scope.
Local Open Scope Z_scope.

(** ** Constants *)

Definition _MAX_URL_LENGTH : nat := 1024.
Definition _MAX_TITLE_LENGTH : nat := 1024.
Definition _SPIDER_FEED_NAME : string := "Spider Feed".

(** ** Rows *)

(** A date value: [fallback_date] is a [datetime], the synthesizer's own
    timestamp is the ISO string of a clock reading. *)
Inductive pydate : Type :=
| PyDatetime (t : Z)
| PyIsoString (s : string).

Record story : Type := mkStory {
  stories_id : Z;
  media_id : Z;
  url : string;
  guid : string;
  title : string;
  description : string;
  publish_date : option pydate;
  collect_date : Z
}.

(** The dict [add_new_story] builds before the row has an identifier. *)
Record story_dict : Type := mkStoryDict {
  sd_url : string;
  sd_guid : string;
  sd_media_id : Z;
  sd_collect_date : Z;
  sd_title : string;
  sd_description : string;
  sd_publish_date : option pydate
}.

Record medium : Type := mkMedium {
  m_media_id : Z;
  m_url : string;
  m_name : string;
  dup_media_id : option Z;
  foreign_rss_links : bool
}.

Record story_sentence : Type := mkSentence {
  ss_stories_id : Z;
  ss_sentence_number : Z
}.

Record seed_url : Type := mkSeedUrl {
  csu_url : string;
  csu_stories_id : option Z
}.

Record feed : Type := mkFeed {
  feeds_id : Z;
  f_media_id : Z;
  f_url : string;
  f_name : string;
  feed_status : string
}.

Record tag_set : Type := mkTagSet {
  tag_sets_id : Z;
  ts_name : string
}.

Record tag : Type := mkTag {
  tags_id : Z;
  t_tag : string;
  t_tag_sets_id : Z
}.

Record download : Type := mkDownload {
  downloads_id : Z;
  d_feeds_id : Z;
  d_stories_id : Z;
  d_url : string;
  d_host : string;
  d_type : string;
  d_sequence : Z;
  d_state : string;
  d_path : string;
  d_priority : Z;
  d_extracted : string
}.

Record database : Type := mkDb {
  t_media : list medium;
  t_stories : list story;
  t_story_sentences : list story_sentence;
  t_topic_seed_urls : list seed_url;
  t_topic_ignore_redirects : list string;
  t_feeds : list feed;
  t_tag_sets : list tag_set;
  t_tags : list tag;
  t_stories_tags_map : list (Z * Z);
  t_feeds_stories_map : list (Z * Z);
  t_downloads : list download
}.

Definition empty_db : database :=
  mkDb [] [] [] [] [] [] [] [] [] [] [].

(** ** Decidable equality on rows *)

Definition option_eqb {A : Type} (eqb : A -> A -> bool) (x y : option A) : bool :=
  match x, y with
  | Some a, Some b => eqb a b
  | None, None => true
  | _, _ => false
  end.

Definition pydate_eq_dec : forall x y : pydate, {x = y} + {x <> y}.
Proof. decide equality; [apply Z.eq_dec | apply string_dec]. Defined.

Definition story_eq_dec : forall x y : story, {x = y} + {x <> y}.
Proof.
  decide equality; try apply Z.eq_dec; try apply string_dec.
  decide equality. apply pydate_eq_dec.
Defined.

(** ** Effects: exceptions, database calls, the clock *)

Inductive exn : Type :=
| AssertionError
| IndexError
| StoreFailure (msg : string).

Inductive result (A : Type) : Type :=
| Ok (a : A)
| Raise (e : exn).
Arguments Ok {A} a.
Arguments Raise {A} e.

(** Every call this module makes on the database handler is recorded. *)
Inductive event : Type :=
| QMostSentences (ids : list Z)
| QMedia (ids : list Z)
| QIgnoreRedirect (u : string)
| QStoryMatch (urls : list string)
| QSpiderFeed (mid : Z) (u name : string)
| FindOrCreateTagSet (name : string)
| FindOrCreateTag (name : string) (tsid : Z)
| CreateStory (s : story_dict)
| CreateStoriesTagsMap (sid tid : Z)
| CreateFeedsStoriesMap (sid fid : Z)
| CreateFeed (mid : Z) (u name : string)
| CreateDownload (sid fid : Z).

Record world : Type := mkWorld {
  db : database;
  time : Z;
  trace : list event
}.

Definition M (A : Type) : Type := world -> result A * world.

Definition ret {A : Type} (a : A) : M A := fun w => (Ok a, w).

Definition bind {A B : Type} (m : M A) (k : A -> M B) : M B :=
  fun w =>
    match m w with
    | (Ok a, w') => k a w'
    | (Raise e, w') => (Raise e, w')
    end.

Definition raise {A : Type} (e : exn) : M A := fun w => (Raise e, w).

Declare Scope py_scope.
Delimit Scope py_scope with py.
Notation "x <- c1 ;; c2" := (bind c1 (fun x => c2))
  (at level 100, c1 at next level, right associativity) : py_scope.
Notation "c1 ;;; c2" := (bind c1 (fun _ => c2))
  (at level 100, right associativity) : py_scope.
Local Open Scope py_scope.

(** [assert cond] *)
Definition py_assert (cond : bool) : M unit :=
  if cond then ret tt else raise AssertionError.

Definition log (e : event) : M unit :=
  fun w => (Ok tt, mkWorld (db w) (time w) (e :: trace w)).

Definition get_db : M database := fun w => (Ok (db w), w).

Definition put_db (d : database) : M unit :=
  fun w => (Ok tt, mkWorld d (time w) (trace w)).

(** A collaborator that works on the database but is not part of this module:
    it may change the tables or fail, and makes none of this module's calls. *)
Definition collaborator (A : Type) : Type := database -> result (A * database).

Definition call {A : Type} (c : collaborator A) : M A :=
  fun w =>
    match c (db w) with
    | Ok (a, d) => (Ok a, mkWorld d (time w) (trace w))
    | Raise e => (Raise e, w)
    end.

(** ** Python built-ins *)

(** [l[0]] *)
Definition index0 {A : Type} (l : list A) : M A :=
  match l with
  | x :: _ => ret x
  | [] => raise IndexError
  end.

(** [s[0:n]] *)
Fixpoint slice_to (n : nat) (s : string) : string :=
  match n, s with
  | S n', String c s' => String c (slice_to n' s')
  | _, _ => EmptyString
  end.

(** [re.sub('\x00', '', s)] *)
Fixpoint strip_nul (s : string) : string :=
  match s with
  | EmptyString => EmptyString
  | String c s' =>
      if Ascii.eqb c zero then strip_nul s' else String c (strip_nul s')
  end.

(** [s.startswith(p)] *)
Definition startswith (s p : string) : bool := String.prefix p s.

(** Stable sort by key, as [sorted(l, key=...)]: an element goes in front of
    the first element already placed whose key is not smaller. *)
Section Sorted.
Context {A K : Type} (leb : K -> K -> bool) (key : A -> K).

Fixpoint insert_by (x : A) (l : list A) : list A :=
  match l with
  | [] => [x]
  | y :: t => if leb (key x) (key y) then x :: l else y :: insert_by x t
  end.

Fixpoint sorted (l : list A) : list A :=
  match l with
  | [] => []
  | x :: t => insert_by x (sorted t)
  end.

(** The head of a list is not above any element. *)
Definition head_least (l : list A) : Prop :=
  match l with
  | [] => True
  | h :: _ => forall y, In y l -> leb (key h) (key y) = true
  end.
End Sorted.

(** Comparison of the 4-tuples [operator.itemgetter] returns. *)
Definition rank_key : Type := (Z * Z * Z * Z)%type.

Definition tuple_leb (a b : rank_key) : bool :=
  let '(a1, a2, a3, a4) := a in
  let '(b1, b2, b3, b4) := b in
  if a1 <? b1 then true else if b1 <? a1 then false else
  if a2 <? b2 then true else if b2 <? a2 then false else
  if a3 <? b3 then true else if b3 <? a3 then false else
  a4 <=? b4.

(** ** Queries

    Each SQL statement of the module as a function of the tables.  A table
    is scanned in list order; [hash()] is the first row of a result, if any. *)

Fixpoint mem_Z (x : Z) (l : list Z) : bool :=
  match l with
  | [] => false
  | y :: t => (x =? y) || mem_Z x t
  end.

Fixpoint mem_str (x : string) (l : list string) : bool :=
  match l with
  | [] => false
  | y :: t => String.eqb x y || mem_str x t
  end.

(** Duplicates removed, first occurrences kept ([distinct], [group by],
    [union], [set(...)]). *)
Fixpoint dedup {A : Type} (eqb : A -> A -> bool) (l : list A) : list A :=
  match l with
  | [] => []
  | x :: t => x :: filter (fun y => negb (eqb x y)) (dedup eqb t)
  end.

Definition story_eqb (a b : story) : bool :=
  if story_eq_dec a b then true else false.

Definition hash {A : Type} (rows : list A) : option A := hd_error rows.

(** [count( * )] of the sentence rows of one story among [rows]. *)
Definition sentence_count (rows : list story_sentence) (sid : Z) : Z :=
  Z.of_nat (List.length (filter (fun r => ss_stories_id r =? sid) rows)).

(** [select stories_id from story_sentences where stories_id = any(ids)
     group by stories_id order by count( * ) desc limit 1]

    SQL leaves open which of several groups with the same count comes
    first.  Here the groups appear in the scan order of [story_sentences] and
    the ordering is stable; the array [ids] is used for membership only, so
    the order of its elements has no influence. *)
Definition q_top_sentence_ids (d : database) (ids : list Z) : list Z :=
  let rows := filter (fun r => mem_Z (ss_stories_id r) ids) (t_story_sentences d) in
  let groups := dedup Z.eqb (map ss_stories_id rows) in
  let ordered := sorted (fun a b => b <=? a) (sentence_count rows) groups in
  firstn 1 ordered.

(** [select s.* from stories s where stories_id in ( ... )], then [hash()]. *)
Definition q_most_sentences (d : database) (ids : list Z) : option story :=
  hash (filter (fun s => mem_Z (stories_id s) (q_top_sentence_ids d ids))
               (t_stories d)).

(** [exists ( select 1 from media d where d.dup_media_id = m.media_id )] *)
Definition sql_is_dup_target (d : database) (m : medium) : bool :=
  existsb (fun d' => option_eqb Z.eqb (dup_media_id d') (Some (m_media_id m)))
          (t_media d).

(** [select *, exists (...) as is_dup_target from media m
     where media_id = any(ids)] *)
Definition q_media (d : database) (ids : list Z) : list (medium * bool) :=
  map (fun m => (m, sql_is_dup_target d m))
      (filter (fun m => mem_Z (m_media_id m) ids) (t_media d)).

(** [select 1 from topic_ignore_redirects where url = u], then [hash()]. *)
Definition q_ignore_redirect (d : database) (u : string) : option Z :=
  hash (map (fun _ => 1) (filter (String.eqb u) (t_topic_ignore_redirects d))).

(** [join media m on s.media_id = m.media_id ... m.foreign_rss_links = false] *)
Definition joins_plain_medium (d : database) (s : story) : bool :=
  existsb (fun m => (media_id s =? m_media_id m) && negb (foreign_rss_links m))
          (t_media d).

(** [join topic_seed_urls csu on s.stories_id = csu.stories_id
     where csu.url = any(urls)] *)
Definition joins_seed_url (d : database) (urls : list string) (s : story) : bool :=
  existsb (fun csu => option_eqb Z.eqb (csu_stories_id csu) (Some (stories_id s))
                      && mem_str (csu_url csu) urls)
          (t_topic_seed_urls d).

(** The two-branch [union] query of [get_story_match]. *)
Definition q_story_match (d : database) (urls : list string) : list story :=
  let by_url :=
    filter (fun s => (mem_str (url s) urls || mem_str (guid s) urls)
                     && joins_plain_medium d s) (t_stories d) in
  let by_seed :=
    filter (fun s => joins_seed_url d urls s && joins_plain_medium d s)
           (t_stories d) in
  dedup story_eqb (dedup story_eqb by_url ++ dedup story_eqb by_seed).

Definition db_query {A P : Type} (ev : P -> event) (q : database -> P -> A)
    (params : P) : M A :=
  log (ev params) ;;; d <- get_db ;; ret (q d params).

(** ** The preferred-story selector *)

Definition _get_story_with_most_sentences (stories : list story) : M story :=
  py_assert (0 <? List.length stories)%nat ;;;
  if (List.length stories =? 1)%nat then index0 stories else
  story <- db_query QMostSentences q_most_sentences (map stories_id stories) ;;
  match story with
  | Some s => ret s
  | None => index0 stories
  end.

(** A row of the media query after the loop of [get_preferred_story] has
    overwritten [is_dup_target] and added the other three entries. *)
Record ranked_medium : Type := mkRanked {
  rm_row : medium;
  is_dup_target : Z;
  is_not_dup_source : Z;
  matches_domain : Z;
  rm_stories : list story
}.

(** Truth value of [medium['dup_media_id']]: [None] and [0] are false. *)
Definition truthy (x : option Z) : bool :=
  match x with
  | Some n => negb (n =? 0)
  | None => false
  end.

Definition itemgetter (m : ranked_medium) : rank_key :=
  (is_dup_target m, is_not_dup_source m, matches_domain m, m_media_id (rm_row m)).

(** ** The date guesser's result and the other collaborators *)

(** What [found()], [guess_method()] and [date()] return. *)
Record GuessDateResult : Type := mkGuess {
  found : bool;
  guess_method : string;
  date : option pydate
}.

(** Functions of [mediawords.util.url], [mediawords.tm.media],
    [mediawords.tm.guess_date], [mediawords.util.html],
    [mediawords.dbi.downloads] and [datetime] that this module calls. *)
Record collaborators : Type := mkCollab {
  get_url_distinctive_domain : string -> string;
  normalize_url_lossy : string -> string;
  get_url_host : string -> string;
  generate_medium_url_and_name_from_url : string -> string * string;
  guess_medium : string -> collaborator medium;
  get_spidered_tag : collaborator tag;
  html_title : string -> string -> nat -> string;
  guess_date : string -> string -> GuessDateResult;
  store_content : download -> string -> collaborator download;
  tick : Z -> Z;
  isoformat : Z -> string
}.

(** [\w] on code points below 256: digits, letters, the underscore and the
    Latin-1 alphanumerics. *)
Definition is_word_char (c : ascii) : bool :=
  let n := N_of_ascii c in
  ((48 <=? n) && (n <=? 57) || (65 <=? n) && (n <=? 90) || (n =? 95)
   || (97 <=? n) && (n <=? 122)
   || (n =? 170) || (n =? 178) || (n =? 179) || (n =? 181) || (n =? 185)
   || (n =? 186) || (188 <=? n) && (n <=? 190)
   || (192 <=? n) && (n <=? 214) || (216 <=? n) && (n <=? 246)
   || (248 <=? n))%N.

(** The longest run of word characters at the head of [s]. *)
Fixpoint word_run (s : string) : string :=
  match s with
  | String c s' => if is_word_char c then String c (word_run s') else EmptyString
  | EmptyString => EmptyString
  end.

(** [re.search(r'\<(\w+)', s)] and its [group(1)]: the leftmost ["<"] that
    a word character follows, and the word characters after it. *)
Fixpoint re_search_tag (s : string) : option string :=
  match s with
  | EmptyString => None
  | String c s' =>
      if Ascii.eqb c "<"%char then
        match word_run s' with
        | EmptyString => re_search_tag s'
        | w => Some w
        end
      else re_search_tag s'
  end.

(** ** Writes *)

Definition next_id (ids : list Z) : Z := 1 + fold_right Z.max 0 ids.

Definition set_stories (d : database) (l : list story) : database :=
  mkDb (t_media d) l (t_story_sentences d) (t_topic_seed_urls d)
       (t_topic_ignore_redirects d) (t_feeds d) (t_tag_sets d) (t_tags d)
       (t_stories_tags_map d) (t_feeds_stories_map d) (t_downloads d).

Definition set_feeds (d : database) (l : list feed) : database :=
  mkDb (t_media d) (t_stories d) (t_story_sentences d) (t_topic_seed_urls d)
       (t_topic_ignore_redirects d) l (t_tag_sets d) (t_tags d)
       (t_stories_tags_map d) (t_feeds_stories_map d) (t_downloads d).

Definition set_tag_sets (d : database) (l : list tag_set) : database :=
  mkDb (t_media d) (t_stories d) (t_story_sentences d) (t_topic_seed_urls d)
       (t_topic_ignore_redirects d) (t_feeds d) l (t_tags d)
       (t_stories_tags_map d) (t_feeds_stories_map d) (t_downloads d).

Definition set_tags (d : database) (l : list tag) : database :=
  mkDb (t_media d) (t_stories d) (t_story_sentences d) (t_topic_seed_urls d)
       (t_topic_ignore_redirects d) (t_feeds d) (t_tag_sets d) l
       (t_stories_tags_map d) (t_feeds_stories_map d) (t_downloads d).

Definition set_stories_tags_map (d : database) (l : list (Z * Z)) : database :=
  mkDb (t_media d) (t_stories d) (t_story_sentences d) (t_topic_seed_urls d)
       (t_topic_ignore_redirects d) (t_feeds d) (t_tag_sets d) (t_tags d)
       l (t_feeds_stories_map d) (t_downloads d).

Definition set_feeds_stories_map (d : database) (l : list (Z * Z)) : database :=
  mkDb (t_media d) (t_stories d) (t_story_sentences d) (t_topic_seed_urls d)
       (t_topic_ignore_redirects d) (t_feeds d) (t_tag_sets d) (t_tags d)
       (t_stories_tags_map d) l (t_downloads d).

Definition set_downloads (d : database) (l : list download) : database :=
  mkDb (t_media d) (t_stories d) (t_story_sentences d) (t_topic_seed_urls d)
       (t_topic_ignore_redirects d) (t_feeds d) (t_tag_sets d) (t_tags d)
       (t_stories_tags_map d) (t_feeds_stories_map d) l.

(** Assignments to entries of the story dict. *)
Definition set_sd_url (s : story_dict) (v : string) : story_dict :=
  mkStoryDict v (sd_guid s) (sd_media_id s) (sd_collect_date s) (sd_title s)
              (sd_description s) (sd_publish_date s).

Definition set_sd_guid (s : story_dict) (v : string) : story_dict :=
  mkStoryDict (sd_url s) v (sd_media_id s) (sd_collect_date s) (sd_title s)
              (sd_description s) (sd_publish_date s).

Definition set_sd_title (s : story_dict) (v : string) : story_dict :=
  mkStoryDict (sd_url s) (sd_guid s) (sd_media_id s) (sd_collect_date s) v
              (sd_description s) (sd_publish_date s).

Definition set_sd_publish_date (s : story_dict) (v : option pydate) : story_dict :=
  mkStoryDict (sd_url s) (sd_guid s) (sd_media_id s) (sd_collect_date s)
              (sd_title s) (sd_description s) v.

(** [db.create('stories', story)]: the row gets the next identifier and is
    returned. *)
Definition db_create_stories (s : story_dict) : M story :=
  log (CreateStory s) ;;;
  d <- get_db ;;
  let row := mkStory (next_id (map stories_id (t_stories d))) (sd_media_id s)
                     (sd_url s) (sd_guid s) (sd_title s) (sd_description s)
                     (sd_publish_date s) (sd_collect_date s) in
  put_db (set_stories d (t_stories d ++ [row])) ;;;
  ret row.

Definition db_create_stories_tags_map (sid tid : Z) : M unit :=
  log (CreateStoriesTagsMap sid tid) ;;;
  d <- get_db ;;
  put_db (set_stories_tags_map d (t_stories_tags_map d ++ [(sid, tid)])).

Definition db_create_feeds_stories_map (sid fid : Z) : M unit :=
  log (CreateFeedsStoriesMap sid fid) ;;;
  d <- get_db ;;
  put_db (set_feeds_stories_map d (t_feeds_stories_map d ++ [(sid, fid)])).

Definition db_create_feeds (mid : Z) (u name status : string) : M feed :=
  log (CreateFeed mid u name) ;;;
  d <- get_db ;;
  let row := mkFeed (next_id (map feeds_id (t_feeds d))) mid u name status in
  put_db (set_feeds d (t_feeds d ++ [row])) ;;;
  ret row.

Definition db_create_downloads (row : Z -> download) (sid fid : Z) : M download :=
  log (CreateDownload sid fid) ;;;
  d <- get_db ;;
  let r := row (next_id (map downloads_id (t_downloads d))) in
  put_db (set_downloads d (t_downloads d ++ [r])) ;;;
  ret r.

(** [db.find_or_create('tag_sets', {'name': name})] *)
Definition db_find_or_create_tag_sets (name : string) : M tag_set :=
  log (FindOrCreateTagSet name) ;;;
  d <- get_db ;;
  match find (fun ts => String.eqb (ts_name ts) name) (t_tag_sets d) with
  | Some ts => ret ts
  | None =>
      let row := mkTagSet (next_id (map tag_sets_id (t_tag_sets d))) name in
      put_db (set_tag_sets d (t_tag_sets d ++ [row])) ;;;
      ret row
  end.

(** [db.find_or_create('tags', {'tag': name, 'tag_sets_id': tsid})] *)
Definition db_find_or_create_tags (name : string) (tsid : Z) : M tag :=
  log (FindOrCreateTag name tsid) ;;;
  d <- get_db ;;
  match find (fun t => String.eqb (t_tag t) name && (t_tag_sets_id t =? tsid))
             (t_tags d) with
  | Some t => ret t
  | None =>
      let row := mkTag (next_id (map tags_id (t_tags d))) name tsid in
      put_db (set_tags d (t_tags d ++ [row])) ;;;
      ret row
  end.

(** [select * from feeds where media_id = a and url = b and name = c],
    then [hash()]. *)
Definition q_spider_feed (d : database) (p : Z * string * string) : option feed :=
  let '(a, b, c) := p in
  hash (filter (fun f => (f_media_id f =? a) && String.eqb (f_url f) b
                         && String.eqb (f_name f) c) (t_feeds d)).

Section Stories.

Variable C : collaborators.

Definition _url_domain_matches_medium (m : medium) (urls : list string) : bool :=
  let medium_domain := get_url_distinctive_domain C (m_url m) in
  let story_domains := map (get_url_distinctive_domain C) urls in
  let matches := filter (fun d => String.eqb medium_domain d) story_domains in
  (0 <? List.length matches)%nat.

(** The body of the [for medium in media] loop. *)
Definition rank_medium (stories : list story) (story_urls : list string)
    (row : medium * bool) : ranked_medium :=
  let m := fst row in
  mkRanked m
    (if snd row then 0 else 1)
    (if truthy (dup_media_id m) then 1 else 0)
    (if _url_domain_matches_medium m story_urls then 0 else 1)
    (filter (fun s => media_id s =? m_media_id m) stories).

Definition get_preferred_story (stories : list story) : M story :=
  py_assert (0 <? List.length stories)%nat ;;;
  if (List.length stories =? 1)%nat then index0 stories else
  media <- db_query QMedia q_media (map media_id stories) ;;
  let story_urls := map url stories in
  let media := map (rank_medium stories story_urls) media in
  let sorted_media := sorted tuple_leb itemgetter media in
  top <- index0 sorted_media ;;
  preferred_story <- _get_story_with_most_sentences (rm_stories top) ;;
  ret preferred_story.

(** ** The redirect policy and the story matcher *)

Definition ignore_redirect (url : string) (redirect_url : option string) : M bool :=
  match redirect_url with
  | None => ret false
  | Some r =>
      if String.eqb url r then ret false else
      let medium_url := fst (generate_medium_url_and_name_from_url C r) in
      let u := normalize_url_lossy C medium_url in
      match_ <- db_query QIgnoreRedirect q_ignore_redirect u ;;
      ret (match match_ with Some _ => true | None => false end)
  end.

(** The value of [ru] after lines 189-191: [''] unless the redirect is
    kept. *)
Definition effective_redirect (ignored : bool) (u : string)
    (redirect_url : option string) : string :=
  let ru := "" in
  if negb ignored then
    match redirect_url with
    | Some r => slice_to _MAX_URL_LENGTH r
    | None => u
    end
  else ru.

Definition get_story_match (url : string) (redirect_url : option string) : M story :=
  let u := slice_to _MAX_URL_LENGTH url in
  ignored <- ignore_redirect url redirect_url ;;
  let ru := effective_redirect ignored u redirect_url in
  let nu := normalize_url_lossy C u in
  let nru := normalize_url_lossy C ru in
  let urls := dedup String.eqb [u; ru; nu; nru] in
  stories <- db_query QStoryMatch q_story_match urls ;;
  story <- get_preferred_story stories ;;
  ret story.

(** ** The story synthesizer *)

Definition create_download_for_new_story (s : story) (f : feed) : M download :=
  let download := fun id =>
    mkDownload id (feeds_id f) (stories_id s) (url s)
               (get_url_host C (url s)) "content" 1 "success"
               "content:pending" 1 "f" in
  db_create_downloads download (stories_id s) (feeds_id f).

(** Lines 265-281 of [assign_date_guess_tag]: the names [tag_set] and [tag]
    are bound to. *)
Definition date_guess_tag_names (date_guess : GuessDateResult)
    (fallback_date : option pydate) : string * string :=
  if found date_guess then
    let tag_set := "date_guess_method" in
    let guess_method := guess_method date_guess in
    if startswith guess_method "Extracted from url" then
      (tag_set, "guess_by_url")
    else if startswith guess_method "Extracted from tag" then
      let match_ := re_search_tag guess_method in
      let html_tag := match match_ with Some g => g | None => "unknown" end in
      (tag_set, "guess_by_tag_" ++ html_tag)
    else
      (tag_set, "guess_by_unknown")
  else
    match fallback_date with
    | Some _ => ("date_guess_method", "fallback_date")
    | None => ("date_invalid", "date_invalid")
    end.

Definition assign_date_guess_tag (s : story) (date_guess : GuessDateResult)
    (fallback_date : option pydate) : M unit :=
  let '(tag_set, tag) := date_guess_tag_names date_guess fallback_date in
  ts <- db_find_or_create_tag_sets tag_set ;;
  t <- db_find_or_create_tags tag (tag_sets_id ts) ;;
  db_create_stories_tags_map (stories_id s) (tags_id t).

Definition get_spider_feed (m : medium) : M feed :=
  f <- db_query (fun p => QSpiderFeed (fst (fst p)) (snd (fst p)) (snd p))
                q_spider_feed (m_media_id m, m_url m, _SPIDER_FEED_NAME) ;;
  match f with
  | Some f => ret f
  | None => db_create_feeds (m_media_id m) (m_url m) _SPIDER_FEED_NAME "inactive"
  end.

(** [datetime.datetime.now()] *)
Definition datetime_now : M Z :=
  fun w => (Ok (time w), mkWorld (db w) (tick C (time w)) (trace w)).

Definition add_new_story (url content : string) (fallback_date : option pydate)
    : M story :=
  let url := slice_to _MAX_URL_LENGTH url in
  medium <- call (guess_medium C url) ;;
  feed <- get_spider_feed medium ;;
  spidered_tag <- call (get_spidered_tag C) ;;
  let title := html_title C content url _MAX_TITLE_LENGTH in
  now <- datetime_now ;;
  let s := mkStoryDict url url (m_media_id medium) now title "" None in
  let s := set_sd_url s (strip_nul (sd_url s)) in
  let s := set_sd_guid s (strip_nul (sd_guid s)) in
  let s := set_sd_title s (strip_nul (sd_title s)) in
  let date_guess := guess_date C url content in
  let s := set_sd_publish_date s
             (if found date_guess then date date_guess else fallback_date) in
  s <- match sd_publish_date s with
       | None =>
           now <- datetime_now ;;
           ret (set_sd_publish_date s (Some (PyIsoString (isoformat C now))))
       | Some _ => ret s
       end ;;
  s <- db_create_stories s ;;
  db_create_stories_tags_map (stories_id s) (tags_id spidered_tag) ;;;
  assign_date_guess_tag s date_guess fallback_date ;;;
  db_create_feeds_stories_map (stories_id s) (feeds_id feed) ;;;
  download <- create_download_for_new_story s feed ;;
  download <- call (store_content C download content) ;;
  ret s.

End Stories.

(** ** Vocabulary of the properties *)

(** A computation that only appends to the record of calls and leaves the
    tables and the clock alone. *)
Definition read_only {A : Type} (m : M A) : Prop :=
  forall w r w', m w = (r, w') ->
    db w' = db w /\ time w' = time w
    /\ exists evs, trace w' = (evs ++ trace w)%list.

(** The sources of the candidates in ranking order, and the first of them. *)
Definition ranked_sources (C : collaborators) (d : database)
    (stories : list story) : list ranked_medium :=
  sorted tuple_leb itemgetter
    (map (rank_medium C stories (map url stories))
         (q_media d (map media_id stories))).

Definition top_ranked_source (C : collaborators) (d : database)
    (stories : list story) : option ranked_medium :=
  hd_error (ranked_sources C d stories).

(** The candidates are rows of the store, and the store keeps its keys:
    story and media identifiers are unique and every candidate's source has a
    row. *)
Record store_consistent (d : database) (stories : list story) : Prop := {
  sc_rows : forall s, In s stories -> In s (t_stories d);
  sc_stories_key : NoDup (map stories_id (t_stories d));
  sc_media_key : NoDup (map m_media_id (t_media d));
  sc_media_ref : forall s, In s stories ->
                 In (media_id s) (map m_media_id (t_media d))
}.

(** The number of sentences the store holds for a story. *)
Definition sentences_of (d : database) (s : story) : Z :=
  sentence_count (t_story_sentences d) (stories_id s).

(** The candidates of one source, in candidate order. *)
Definition stories_of_source (mid : Z) (stories : list story) : list story :=
  filter (fun s => media_id s =? mid) stories.

(** No character of [s] is the null character. *)
Definition no_nul (s : string) : Prop := ~ In zero (list_ascii_of_string s).

(** The row of a source in the ranking. *)
Definition ranked (C : collaborators) (d : database) (stories : list story)
    (m : medium) : ranked_medium :=
  rank_medium C stories (map url stories) (m, sql_is_dup_target d m).

(** After the step from [w] to [w'] the story [sid] has exactly one more
    tag: the tag [tag_name] of the tag set [tag_set_name]. *)
Definition attaches (w w' : world) (sid : Z) (tag_set_name tag_name : string)
    : Prop :=
  exists ts t,
    In ts (t_tag_sets (db w')) /\ ts_name ts = tag_set_name
    /\ In t (t_tags (db w')) /\ t_tag t = tag_name
    /\ t_tag_sets_id t = tag_sets_id ts
    /\ t_stories_tags_map (db w')
       = (t_stories_tags_map (db w) ++ [(sid, tags_id t)])%list.

(** A guess method that names the html tag [name]: the first ["<"] with a
    word character after it is followed by exactly the word [name]. *)
Definition names_tag (method name : string) : Prop :=
  exists pre post,
    method = pre ++ String "<" (name ++ post)
    /\ name <> ""
    /\ (forall c, In c (list_ascii_of_string name) -> is_word_char c = true)
    /\ (forall c post', post = String c post' -> is_word_char c = false)
    /\ (forall p c q, pre = p ++ String "<" (String c q) -> is_word_char c = false).

(** A guess method in which no ["<"] has a word character after it. *)
Definition names_no_tag (method : string) : Prop :=
  forall p c q, method = p ++ String "<" (String c q) -> is_word_char c = false.

(** A collaborator that does not fail. *)
Definition succeeds {A : Type} (c : collaborator A) : Prop :=
  forall d, exists a d', c d = Ok (a, d').

(** A computation that returns, satisfies [Q] and leaves the clock alone. *)
Definition keeps_time {A : Type} (m : M A) (Q : A -> Prop) : Prop :=
  forall w, exists a w', m w = (Ok a, w') /\ time w' = time w /\ Q a.

(** Every story dict the computation hands to [db.create('stories', ...)]
    satisfies [P], and what it returns satisfies [Q]. *)
Definition creates {A : Type} (P : story_dict -> Prop) (Q : A -> Prop)
    (m : M A) : Prop :=
  forall w r w', m w = (r, w') ->
    (exists evs, trace w' = (evs ++ trace w)%list
                 /\ forall sd, In (CreateStory sd) evs -> P sd)
    /\ (forall a, r = Ok a -> Q a).

(** The limits a stored story respects. *)
Definition dict_within_limits (sd : story_dict) : Prop :=
  (String.length (sd_url sd) <= _MAX_URL_LENGTH)%nat
  /\ (String.length (sd_guid sd) <= _MAX_URL_LENGTH)%nat
  /\ no_nul (sd_url sd) /\ no_nul (sd_guid sd) /\ no_nul (sd_title sd).

Definition story_within_limits (s : story) : Prop :=
  (String.length (url s) <= _MAX_URL_LENGTH)%nat
  /\ (String.length (guid s) <= _MAX_URL_LENGTH)%nat
  /\ no_nul (url s) /\ no_nul (guid s) /\ no_nul (title s).

(** The kinds of calls on the database handler. *)
Inductive event_kind : Type :=
| KQuery
| KFindOrCreate
| KCreateStory
| KCreateStoriesTagsMap
| KCreateFeedsStoriesMap
| KCreateFeed
| KCreateDownload.

Definition kind_of (e : event) : event_kind :=
  match e with
  | QMostSentences _ | QMedia _ | QIgnoreRedirect _ | QStoryMatch _
  | QSpiderFeed _ _ _ => KQuery
  | FindOrCreateTagSet _ | FindOrCreateTag _ _ => KFindOrCreate
  | CreateStory _ => KCreateStory
  | CreateStoriesTagsMap _ _ => KCreateStoriesTagsMap
  | CreateFeedsStoriesMap _ _ => KCreateFeedsStoriesMap
  | CreateFeed _ _ _ => KCreateFeed
  | CreateDownload _ _ => KCreateDownload
  end.

Definition kind_eqb (a b : event_kind) : bool :=
  match a, b with
  | KQuery, KQuery | KFindOrCreate, KFindOrCreate
  | KCreateStory, KCreateStory
  | KCreateStoriesTagsMap, KCreateStoriesTagsMap
  | KCreateFeedsStoriesMap, KCreateFeedsStoriesMap
  | KCreateFeed, KCreateFeed | KCreateDownload, KCreateDownload => true
  | _, _ => false
  end.

(** How many of the recorded calls are of kind [k]. *)
Definition count_kind (k : event_kind) (evs : list event) : nat :=
  List.length (filter (fun e => kind_eqb (kind_of e) k) evs).

(** One when [k'] is the kind [k] counted, zero otherwise. *)
Definition one_if (k k' : event_kind) : nat := if kind_eqb k' k then 1 else 0.

(** The computation makes at most [n] calls of kind [k], and exactly [n]
    when it returns. *)
Definition emits {A : Type} (k : event_kind) (n : nat) (m : M A) : Prop :=
  forall w r w', m w = (r, w') ->
    exists evs, trace w' = (evs ++ trace w)%list
      /\ (count_kind k evs <= n)%nat
      /\ (forall a, r = Ok a -> count_kind k evs = n).

(** A collaborator that does not fail and leaves the stories and the media
    alone. *)
Definition keeps_catalog {A : Type} (c : collaborator A) : Prop :=
  forall d, exists a d',
    c d = Ok (a, d') /\ t_stories d' = t_stories d /\ t_media d' = t_media d.

(** A computation that returns, satisfies [Q] and leaves the stories and the
    media alone. *)
Definition keeps_catalog_M {A : Type} (m : M A) (Q : A -> Prop) : Prop :=
  forall w, exists a w',
    m w = (Ok a, w') /\ Q a
    /\ t_stories (db w') = t_stories (db w)
    /\ t_media (db w') = t_media (db w).

(** Some row of [media] has the source [m] as its [dup_media_id]: [m] is a
    duplication target. *)
Definition pointed_at (d : database) (m : medium) : Prop :=
  exists d', In d' (t_media d) /\ dup_media_id d' = Some (m_media_id m).

(** The source [m] is itself marked a duplicate of another source. *)
Definition has_dup_mark (m : medium) : Prop :=
  exists n, dup_media_id m = Some n /\ n <> 0.

(** The url of the source [m] has the distinctive domain of the url of one
    of the stories. *)
Definition shares_domain (C : collaborators) (m : medium)
    (stories : list story) : Prop :=
  exists s, In s stories
    /\ get_url_distinctive_domain C (url s)
       = get_url_distinctive_domain C (m_url m).

(** The priority order of the sources, on the rows: duplication targets
    first, then sources without a duplicate mark, then sources whose domain
    is that of a candidate, then the lower [media_id]. *)
Definition ranks_before (C : collaborators) (d : database)
    (stories : list story) (m m' : medium) : Prop :=
  (pointed_at d m /\ ~ pointed_at d m')
  \/ ((pointed_at d m <-> pointed_at d m')
      /\ ((~ has_dup_mark m /\ has_dup_mark m')
          \/ ((has_dup_mark m <-> has_dup_mark m')
              /\ ((shares_domain C m stories /\ ~ shares_domain C m' stories)
                  \/ ((shares_domain C m stories <-> shares_domain C m' stories)
                      /\ m_media_id m <= m_media_id m'))))).

(** ** A sample deployment

    Concrete collaborators and stores on which the functions above can be
    run. *)
Module Sample.

(** The text of a url between ["http://"] and the next ["/"]. *)
Fixpoint until_slash (s : string) : string :=
  match s with
  | String c s' => if Ascii.eqb c "/"%char then EmptyString else String c (until_slash s')
  | EmptyString => EmptyString
  end.

Definition domain_of (u : string) : string :=
  if String.prefix "http://" u
  then until_slash (substring 7 (String.length u - 7) u)
  else until_slash u.

Definition guess (u content : string) : GuessDateResult :=
  if String.eqb content "" then mkGuess false "" None
  else if String.prefix "<h1" content
  then mkGuess true ("Extracted from tag:" ++ content) (Some (PyIsoString "2019-03-04"))
  else mkGuess true "Extracted from url" (Some (PyIsoString "2018-01-02")).

Definition spidered : tag := mkTag 1 "spidered" 1.

Definition env : collaborators :=
  mkCollab domain_of
           (fun u => u)
           domain_of
           (fun u => ("http://" ++ domain_of u ++ "/", domain_of u))
           (fun u d => Ok (mkMedium 7 ("http://" ++ domain_of u ++ "/") (domain_of u) None false, d))
           (fun d => Ok (spidered, d))
           (fun content u n => slice_to n content)
           guess
           (fun dl content d => Ok (dl, d))
           (fun t => t + 1)
           (fun t => "T" ++ String (ascii_of_N (Z.to_N (48 + t mod 10))) "").

Definition start (d : database) : world := mkWorld d 5 [].

(** Medium 20 is marked a duplicate of medium 30, which makes medium 30 a
    duplication target; medium 10 is unrelated. *)
Definition m10 : medium := mkMedium 10 "http://other.org/" "other" None false.
Definition m20 : medium := mkMedium 20 "http://mirror.net/" "mirror" (Some 30) false.
Definition m30 : medium := mkMedium 30 "http://example.com/" "example" None false.

Definition st_a : story :=
  mkStory 1 10 "http://other.org/a" "http://example.com/a" "A" "" None 0.
Definition st_b : story :=
  mkStory 2 30 "http://example.com/a" "guid-b" "B" "" None 0.
Definition st_c : story :=
  mkStory 3 30 "http://example.com/a?x" "http://example.com/a" "C" "" None 0.

Definition db3 : database :=
  mkDb [m10; m20; m30] [st_a; st_b; st_c]
       [mkSentence 3 0; mkSentence 2 0; mkSentence 3 1]
       [] ["http://parked.biz/"] [] [] [] [] [] [].

(** The same store with one sentence for each of stories 2 and 3, the
    sentence of story 3 stored first. *)
Definition db_tie : database :=
  mkDb [m10; m20; m30] [st_a; st_b; st_c]
       [mkSentence 3 0; mkSentence 2 0]
       [] ["http://parked.biz/"] [] [] [] [] [] [].

(** A store without duplicate marks, in which story 4 of medium 10 carries a
    url of the domain of medium 30. *)
Definition st_d : story :=
  mkStory 4 10 "http://example.com/d" "http://example.com/a" "D" "" None 0.

Definition db_plain : database :=
  mkDb [m10; m30] [st_d; st_b] [] [] [] [] [] [] [] [] [].

(** A url with a null character in it. *)
Definition url_nul : string :=
  String "h" (String zero "ttp://example.com/n").

(** The same collaborators with a media guesser that always answers
    medium 30. *)
Definition env_known : collaborators :=
  mkCollab domain_of
           (fun u => u)
           domain_of
           (fun u => ("http://" ++ domain_of u ++ "/", domain_of u))
           (fun u d => Ok (m30, d))
           (fun d => Ok (spidered, d))
           (fun content u n => slice_to n content)
           guess
           (fun dl content d => Ok (dl, d))
           (fun t => t + 1)
           (fun t => "T" ++ String (ascii_of_N (Z.to_N (48 + t mod 10))) "").

(** A story of the mirror, medium 20, beside one of medium 10. *)
Definition st_e : story :=
  mkStory 5 20 "http://mirror.net/a" "http://example.com/a" "E" "" None 0.

Definition db_mirror : database :=
  mkDb [m10; m20; m30] [st_a; st_e] [] [] [] [] [] [] [] [] [].

(** Stories of media 10 and 30 in a store without duplicate marks; each
    medium has the domain of its own story. *)
Definition db_pair : database :=
  mkDb [m10; m30] [st_a; st_b] [] [] [] [] [] [] [] [] [].

(** A url of [n] characters ["a"] after the scheme. *)
Fixpoint padding (n : nat) : string :=
  match n with
  | O => EmptyString
  | S n' => String "a" (padding n')
  end.

Definition long_url (tail : string) : string :=
  "http://example.com/" ++ padding 1024 ++ tail.

(** Stories 2 and 3 in a store whose [media] table is empty. *)
Definition db_orphans : database :=
  mkDb [] [st_b; st_c] [mkSentence 3 0] [] [] [] [] [] [] [] [].

End Sample.

(** * Properties *)

Local Open Scope list_scope.

(** ** Running the monad *)

Lemma bind_ok {A B : Type} (m : M A) (k : A -> M B) (w w1 : world) (a : A) :
  m w = (Ok a, w1) -> bind m k w = k a w1.
Proof. intros H. unfold bind. rewrite H. reflexivity. Qed.

Lemma bind_raise {A B : Type} (m : M A) (k : A -> M B) (w w1 : world) (e : exn) :
  m w = (Raise e, w1) -> bind m k w = (Raise e, w1).
Proof. intros H. unfold bind. rewrite H. reflexivity. Qed.

Lemma db_query_run {A P : Type} (ev : P -> event) (q : database -> P -> A)
    (p : P) (w : world) :
  db_query ev q p w = (Ok (q (db w) p), mkWorld (db w) (time w) (ev p :: trace w)).
Proof. reflexivity. Qed.

Lemma read_only_ret {A : Type} (a : A) : read_only (ret a).
Proof.
  intros w r w' H. inversion H; subst. repeat split. now exists [].
Qed.

Lemma read_only_raise {A : Type} (e : exn) : read_only (@raise A e).
Proof.
  intros w r w' H. inversion H; subst. repeat split. now exists [].
Qed.

Lemma read_only_bind {A B : Type} (m : M A) (k : A -> M B) :
  read_only m -> (forall a, read_only (k a)) -> read_only (bind m k).
Proof.
  intros Hm Hk w r w' H. unfold bind in H.
  destruct (m w) as [[a | e] w1] eqn:E.
  - destruct (Hm _ _ _ E) as (D1 & T1 & evs1 & Tr1).
    destruct (Hk a _ _ _ H) as (D2 & T2 & evs2 & Tr2).
    repeat split; try congruence.
    exists (evs2 ++ evs1). rewrite Tr2, Tr1. now rewrite app_assoc.
  - inversion H; subst. exact (Hm _ _ _ E).
Qed.

Lemma read_only_db_query {A P : Type} (ev : P -> event) (q : database -> P -> A)
    (p : P) : read_only (db_query ev q p).
Proof.
  intros w r w' H. rewrite db_query_run in H. inversion H; subst; simpl.
  repeat split. now exists [ev p].
Qed.

Lemma read_only_index0 {A : Type} (l : list A) : read_only (index0 l).
Proof. destruct l; [apply read_only_raise | apply read_only_ret]. Qed.

Lemma read_only_assert (b : bool) : read_only (py_assert b).
Proof. destruct b; [apply read_only_ret | apply read_only_raise]. Qed.

Lemma read_only_most_sentences (l : list story) :
  read_only (_get_story_with_most_sentences l).
Proof.
  unfold _get_story_with_most_sentences.
  apply read_only_bind; [apply read_only_assert | intros _].
  destruct (List.length l =? 1)%nat; [apply read_only_index0 |].
  apply read_only_bind; [apply read_only_db_query | intros [s |]].
  - apply read_only_ret.
  - apply read_only_index0.
Qed.

Lemma read_only_preferred (C : collaborators) (l : list story) :
  read_only (get_preferred_story C l).
Proof.
  unfold get_preferred_story.
  apply read_only_bind; [apply read_only_assert | intros _].
  destruct (List.length l =? 1)%nat; [apply read_only_index0 |].
  apply read_only_bind; [apply read_only_db_query | intros media].
  apply read_only_bind; [apply read_only_index0 | intros top].
  apply read_only_bind; [apply read_only_most_sentences | intros s].
  apply read_only_ret.
Qed.

(** [ignore_redirect] always answers, and its answer is [False] when there
    is no redirect or the redirect is the url itself. *)
Lemma ignore_redirect_total (C : collaborators) (u : string) (r : option string)
    (w : world) :
  exists b w1, ignore_redirect C u r w = (Ok b, w1) /\ db w1 = db w
               /\ (r = None \/ r = Some u -> b = false /\ w1 = w).
Proof.
  unfold ignore_redirect. destruct r as [r |].
  - destruct (String.eqb u r) eqn:E.
    + exists false, w. repeat split; auto.
    + eexists _, _. split; [reflexivity |]. split; [reflexivity |].
      intros [H | H]; [discriminate |]. inversion H; subst.
      rewrite String.eqb_refl in E. discriminate.
  - exists false, w. repeat split; auto.
Qed.

(** ** The selector on one candidate, and the matcher without a match *)

(** C6: on a list of one candidate [get_preferred_story] returns that
    candidate, whatever the store holds, and makes no call on the database:
    the tables, the clock and the record of calls are as before. *)
Theorem get_preferred_story_singleton (C : collaborators) (s : story) (w : world) :
  get_preferred_story C [s] w = (Ok s, w).
Proof. reflexivity. Qed.

(** C1: when the variant-set query finds no story, [get_story_match] does not
    return the empty result its docstring promises: the assertion of
    [get_preferred_story] on a non-empty list fails. *)
Theorem get_story_match_no_match_raises (C : collaborators) (url : string)
    (redirect_url : option string) (w w1 : world) (ignored : bool) :
  ignore_redirect C url redirect_url w = (Ok ignored, w1) ->
  let u := slice_to _MAX_URL_LENGTH url in
  let ru := effective_redirect ignored u redirect_url in
  let urls := dedup String.eqb
                [u; ru; normalize_url_lossy C u; normalize_url_lossy C ru] in
  q_story_match (db w1) urls = [] ->
  get_story_match C url redirect_url w
  = (Raise AssertionError, mkWorld (db w1) (time w1) (QStoryMatch urls :: trace w1)).
Proof.
  intros Hi u ru urls Hq. unfold get_story_match.
  rewrite (bind_ok _ _ _ _ _ Hi). fold u. fold ru. fold urls.
  unfold bind at 1. rewrite db_query_run. rewrite Hq. reflexivity.
Qed.

(** The matcher is the selector applied to the rows of the variant-set
    query. *)
Lemma get_story_match_run (C : collaborators) (url : string)
    (redirect_url : option string) (w w1 : world) (ignored : bool) :
  ignore_redirect C url redirect_url w = (Ok ignored, w1) ->
  let u := slice_to _MAX_URL_LENGTH url in
  let ru := effective_redirect ignored u redirect_url in
  let urls := dedup String.eqb
                [u; ru; normalize_url_lossy C u; normalize_url_lossy C ru] in
  get_story_match C url redirect_url w
  = get_preferred_story C (q_story_match (db w1) urls)
      (mkWorld (db w1) (time w1) (QStoryMatch urls :: trace w1)).
Proof.
  intros Hi u ru urls. unfold get_story_match.
  rewrite (bind_ok _ _ _ _ _ Hi). fold u. fold ru. fold urls.
  unfold bind at 1. rewrite db_query_run.
  unfold bind at 1.
  destruct (get_preferred_story C _ _) as [[s | e] w2]; reflexivity.
Qed.

(** C2 (as amended): the variant set [get_story_match] queries with is built
    from [u], [ru] and their normalized forms, where [ru] is the empty string
    when [ignore_redirect] answers true, the truncated url [u] when there is
    no redirect url, and the truncated redirect url otherwise; without a
    redirect url [ignore_redirect] answers false. *)
Theorem get_story_match_variant_set (C : collaborators) (url : string)
    (redirect_url : option string) (w w1 : world) (ignored : bool) :
  ignore_redirect C url redirect_url w = (Ok ignored, w1) ->
  let u := slice_to _MAX_URL_LENGTH url in
  let ru := if ignored then ""%string
            else match redirect_url with
                 | Some r => slice_to _MAX_URL_LENGTH r
                 | None => u
                 end in
  let urls := dedup String.eqb
                [u; ru; normalize_url_lossy C u; normalize_url_lossy C ru] in
  effective_redirect ignored u redirect_url = ru
  /\ (redirect_url = None -> ignored = false)
  /\ get_story_match C url redirect_url w
     = get_preferred_story C (q_story_match (db w1) urls)
         (mkWorld (db w1) (time w1) (QStoryMatch urls :: trace w1)).
Proof.
  intros Hi u ru urls.
  assert (E : effective_redirect ignored u redirect_url = ru).
  { unfold effective_redirect, ru. now destruct ignored. }
  split; [exact E |]. split.
  - intros ->. simpl in Hi. now inversion Hi.
  - rewrite (get_story_match_run C url redirect_url w w1 ignored Hi).
    fold u. rewrite E. reflexivity.
Qed.

(** ** Sorting *)

Section SortedFacts.
Context {A K : Type} (leb : K -> K -> bool) (key : A -> K).
Hypothesis leb_total : forall a b, leb a b = true \/ leb b a = true.
Hypothesis leb_trans :
  forall a b c, leb a b = true -> leb b c = true -> leb a c = true.

Lemma In_insert_by (x y : A) (l : list A) :
  In y (insert_by leb key x l) <-> y = x \/ In y l.
Proof.
  induction l as [| h t IH]; simpl.
  - intuition.
  - destruct (leb (key x) (key h)); simpl; rewrite ?IH; intuition.
Qed.

Lemma In_sorted (y : A) (l : list A) : In y (sorted leb key l) <-> In y l.
Proof.
  induction l as [| h t IH]; simpl; [reflexivity |].
  rewrite In_insert_by, IH. intuition.
Qed.

Lemma insert_by_head_least (x : A) (l : list A) :
  head_least leb key l -> head_least leb key (insert_by leb key x l).
Proof.
  destruct l as [| h t]; simpl.
  - intros _ y [<- | []]. destruct (leb_total (key x) (key x)); assumption.
  - intros Hh. destruct (leb (key x) (key h)) eqn:E; simpl.
    + intros y [<- | Hy].
      * destruct (leb_total (key x) (key x)); assumption.
      * eapply leb_trans; [exact E |]. now apply Hh.
    + intros y [<- | Hy].
      * apply Hh. now left.
      * apply In_insert_by in Hy. destruct Hy as [-> | Hy].
        -- destruct (leb_total (key x) (key h)); congruence.
        -- apply Hh. now right.
Qed.

Lemma sorted_head_least (l : list A) : head_least leb key (sorted leb key l).
Proof.
  induction l as [| h t IH]; simpl; [exact I |].
  now apply insert_by_head_least.
Qed.

Lemma sorted_head (l : list A) (x : A) (t : list A) :
  sorted leb key l = x :: t ->
  In x l /\ forall y, In y l -> leb (key x) (key y) = true.
Proof.
  intros E. split.
  - apply In_sorted. rewrite E. now left.
  - intros y Hy. pose proof (sorted_head_least l) as H. rewrite E in H.
    apply H. rewrite <- E. now apply In_sorted.
Qed.

Lemma sorted_nil (l : list A) : sorted leb key l = [] -> l = [].
Proof.
  destruct l as [| h t]; [reflexivity |]. intros E.
  assert (In h (sorted leb key (h :: t))) by (apply In_sorted; now left).
  rewrite E in H. destruct H.
Qed.

End SortedFacts.

Lemma tuple_leb_total (a b : rank_key) :
  tuple_leb a b = true \/ tuple_leb b a = true.
Proof.
  destruct a as [[[a1 a2] a3] a4], b as [[[b1 b2] b3] b4]. unfold tuple_leb.
  repeat match goal with
         | |- context [?x <? ?y] => destruct (Z.ltb_spec x y)
         end; auto; lia.
Qed.

Lemma tuple_leb_trans (a b c : rank_key) :
  tuple_leb a b = true -> tuple_leb b c = true -> tuple_leb a c = true.
Proof.
  destruct a as [[[a1 a2] a3] a4], b as [[[b1 b2] b3] b4],
           c as [[[c1 c2] c3] c4]. unfold tuple_leb.
  repeat match goal with
         | |- context [?x <? ?y] => destruct (Z.ltb_spec x y)
         end; auto; try lia; discriminate.
Qed.

(** ** Membership *)

Lemma mem_Z_In (x : Z) (l : list Z) : mem_Z x l = true <-> In x l.
Proof.
  induction l as [| h t IH]; simpl; [split; [discriminate | tauto] |].
  rewrite orb_true_iff, IH, Z.eqb_eq. intuition.
Qed.

Lemma In_dedup {A : Type} (eqb : A -> A -> bool) (x : A) (l : list A) :
  (forall a b, eqb a b = true -> a = b) ->
  In x (dedup eqb l) <-> In x l.
Proof.
  intros Heq. induction l as [| h t IH]; simpl; [reflexivity |].
  rewrite filter_In, IH. split.
  - intuition.
  - intros [-> | Hx]; [now left |].
    destruct (eqb h x) eqn:E; [left; now apply Heq | right; auto].
Qed.

Lemma NoDup_map_inj {A B : Type} (f : A -> B) (l : list A) (x y : A) :
  NoDup (map f l) -> In x l -> In y l -> f x = f y -> x = y.
Proof.
  induction l as [| h t IH]; simpl; [tauto |].
  intros Hnd Hx Hy E. inversion Hnd as [| ? ? Hnot Hnd']; subst.
  destruct Hx as [-> | Hx], Hy as [-> | Hy]; auto.
  - exfalso. apply Hnot. rewrite E. now apply in_map.
  - exfalso. apply Hnot. rewrite <- E. now apply in_map.
Qed.

(** ** The media query and the ranking *)

Lemma q_media_In (d : database) (ids : list Z) (m : medium) (b : bool) :
  In (m, b) (q_media d ids)
  <-> In m (t_media d) /\ In (m_media_id m) ids /\ b = sql_is_dup_target d m.
Proof.
  unfold q_media. rewrite in_map_iff. split.
  - intros (m' & E & Hin). inversion E; subst.
    apply filter_In in Hin. rewrite mem_Z_In in Hin. tauto.
  - intros (Hm & Hid & ->). exists m. split; [reflexivity |].
    apply filter_In. rewrite mem_Z_In. tauto.
Qed.

Lemma ranked_sources_In (C : collaborators) (d : database)
    (stories : list story) (r : ranked_medium) :
  In r (ranked_sources C d stories)
  <-> exists m, r = ranked C d stories m /\ In m (t_media d)
                /\ In (m_media_id m) (map media_id stories).
Proof.
  unfold ranked_sources. rewrite In_sorted, in_map_iff. split.
  - intros ([m b] & <- & Hin). apply q_media_In in Hin.
    destruct Hin as (Hm & Hid & ->). exists m. auto.
  - intros (m & -> & Hm & Hid). exists (m, sql_is_dup_target d m).
    split; [reflexivity |]. apply q_media_In. auto.
Qed.

(** The top-ranked source is a source of some candidate, and no source of a
    candidate has a smaller key. *)
Lemma top_ranked_least (C : collaborators) (d : database)
    (stories : list story) (top : ranked_medium) :
  top_ranked_source C d stories = Some top ->
  (exists m, top = ranked C d stories m /\ In m (t_media d)
             /\ In (m_media_id m) (map media_id stories))
  /\ forall m, In m (t_media d) -> In (m_media_id m) (map media_id stories) ->
       tuple_leb (itemgetter top) (itemgetter (ranked C d stories m)) = true.
Proof.
  unfold top_ranked_source. intros H.
  destruct (ranked_sources C d stories) as [| x t] eqn:E; [discriminate |].
  inversion H; subst x. split.
  - apply ranked_sources_In. rewrite E. now left.
  - intros m Hm Hid. unfold ranked_sources in E.
    apply (sorted_head tuple_leb itemgetter tuple_leb_total tuple_leb_trans) in E.
    destruct E as [_ E]. apply E. apply in_map_iff.
    exists (m, sql_is_dup_target d m). split; [reflexivity |].
    apply q_media_In. auto.
Qed.

Lemma top_ranked_exists (C : collaborators) (d : database)
    (stories : list story) (s : story) :
  In s stories -> In (media_id s) (map m_media_id (t_media d)) ->
  exists top, top_ranked_source C d stories = Some top.
Proof.
  intros Hs Hm. unfold top_ranked_source.
  destruct (ranked_sources C d stories) as [| x t] eqn:E; [| now exists x].
  exfalso. apply in_map_iff in Hm. destruct Hm as (m & Em & Hm).
  assert (H : In (ranked C d stories m) (ranked_sources C d stories)).
  { apply ranked_sources_In. exists m. repeat split; auto.
    rewrite Em. now apply in_map. }
  rewrite E in H. destruct H.
Qed.

Lemma get_preferred_story_run (C : collaborators) (a b : story)
    (rest : list story) (w : world) :
  let stories := a :: b :: rest in
  let w1 := mkWorld (db w) (time w) (QMedia (map media_id stories) :: trace w) in
  get_preferred_story C stories w
  = match top_ranked_source C (db w) stories with
    | Some top => _get_story_with_most_sentences (rm_stories top) w1
    | None => (Raise IndexError, w1)
    end.
Proof.
  intros stories w1. unfold get_preferred_story.
  change (py_assert (0 <? List.length stories)%nat) with (@ret unit tt).
  change (List.length stories =? 1)%nat with false. cbv iota.
  unfold bind at 1. unfold ret at 1.
  unfold bind at 1. rewrite db_query_run. fold w1.
  unfold top_ranked_source, ranked_sources. simpl db.
  destruct (sorted tuple_leb itemgetter _) as [| top t]; simpl.
  - reflexivity.
  - unfold bind. simpl.
    destruct (_get_story_with_most_sentences (rm_stories top) w1) as [[s | e] w2];
      reflexivity.
Qed.

(** ** The sentence-count query *)

Lemma filter_filter_same {A : Type} (f g : A -> bool) (l : list A) :
  (forall x, f x = true -> g x = true) ->
  filter f (filter g l) = filter f l.
Proof.
  intros H. induction l as [| h t IH]; simpl; [reflexivity |].
  destruct (g h) eqn:G; simpl.
  - destruct (f h); now rewrite IH.
  - destruct (f h) eqn:F; [apply H in F; congruence | exact IH].
Qed.

Lemma sentence_count_restrict (rows : list story_sentence) (ids : list Z) (x : Z) :
  In x ids ->
  sentence_count (filter (fun r => mem_Z (ss_stories_id r) ids) rows) x
  = sentence_count rows x.
Proof.
  intros Hx. unfold sentence_count. rewrite filter_filter_same; [reflexivity |].
  intros r E. apply Z.eqb_eq in E. rewrite E. now apply mem_Z_In.
Qed.

Lemma sentence_count_pos (rows : list story_sentence) (x : Z) :
  0 < sentence_count rows x <-> In x (map ss_stories_id rows).
Proof.
  unfold sentence_count. rewrite in_map_iff. split.
  - intros H. destruct (filter _ rows) as [| r t] eqn:E; [simpl in H; lia |].
    assert (Hr : In r (filter (fun r => ss_stories_id r =? x) rows))
      by (rewrite E; now left).
    apply filter_In in Hr. destruct Hr as [Hr Ex]. apply Z.eqb_eq in Ex.
    now exists r.
  - intros (r & Ex & Hr).
    assert (Hf : In r (filter (fun r => ss_stories_id r =? x) rows)).
    { apply filter_In. split; [exact Hr | now apply Z.eqb_eq]. }
    destruct (filter _ rows); [destruct Hf | simpl; lia].
Qed.

Lemma sentence_count_nonneg (rows : list story_sentence) (x : Z) :
  0 <= sentence_count rows x.
Proof. unfold sentence_count. lia. Qed.

(** The identifier the inner query selects has at least one sentence and as
    many as any other of the given stories. *)
Lemma q_top_sentence_ids_spec (d : database) (ids : list Z) :
  (q_top_sentence_ids d ids = []
   /\ forall x, In x ids -> sentence_count (t_story_sentences d) x = 0)
  \/ exists top, q_top_sentence_ids d ids = [top] /\ In top ids
       /\ 0 < sentence_count (t_story_sentences d) top
       /\ forall x, In x ids ->
            sentence_count (t_story_sentences d) x
            <= sentence_count (t_story_sentences d) top.
Proof.
  unfold q_top_sentence_ids.
  set (rows := filter (fun r => mem_Z (ss_stories_id r) ids) (t_story_sentences d)).
  set (groups := dedup Z.eqb (map ss_stories_id rows)).
  assert (Hg : forall x, In x groups
                         <-> In x ids /\ 0 < sentence_count (t_story_sentences d) x).
  { intros x. unfold groups. rewrite In_dedup by (intros a b; apply Z.eqb_eq).
    rewrite <- sentence_count_pos. unfold rows. split.
    - intros H. assert (Hx : In x ids).
      { apply sentence_count_pos, in_map_iff in H.
        destruct H as (r & <- & Hr). apply filter_In in Hr.
        now apply mem_Z_In. }
      split; [exact Hx |]. now rewrite sentence_count_restrict in H.
    - intros [Hx H]. now rewrite sentence_count_restrict. }
  destruct (sorted _ (sentence_count rows) groups) as [| top t] eqn:E.
  - left. split; [reflexivity |]. intros x Hx.
    apply sorted_nil in E.
    pose proof (sentence_count_nonneg (t_story_sentences d) x).
    destruct (Z.eq_dec (sentence_count (t_story_sentences d) x) 0); [assumption |].
    assert (In x groups) by (apply Hg; split; [assumption | lia]).
    rewrite E in *. contradiction.
  - right. exists top. split; [reflexivity |].
    apply sorted_head in E.
    2: { intros a b. destruct (Z.leb_spec b a), (Z.leb_spec a b); auto; lia. }
    2: { intros a b c. rewrite !Z.leb_le. lia. }
    destruct E as [Htop Hmax]. pose proof (proj1 (Hg top) Htop) as [Hin Hpos].
    repeat split; auto. intros x Hx.
    destruct (Z.eq_dec (sentence_count (t_story_sentences d) x) 0) as [-> | Hne];
      [lia |].
    pose proof (sentence_count_nonneg (t_story_sentences d) x).
    assert (Hxg : In x groups) by (apply Hg; split; [assumption | lia]).
    specialize (Hmax x Hxg). apply Z.leb_le in Hmax. unfold rows in Hmax.
    now rewrite !sentence_count_restrict in Hmax.
Qed.

Lemma q_most_sentences_mem_ext (d : database) (ids ids' : list Z) :
  (forall x, In x ids <-> In x ids') ->
  q_most_sentences d ids = q_most_sentences d ids'.
Proof.
  intros H. unfold q_most_sentences, q_top_sentence_ids.
  assert (E : filter (fun r => mem_Z (ss_stories_id r) ids) (t_story_sentences d)
              = filter (fun r => mem_Z (ss_stories_id r) ids') (t_story_sentences d)).
  { apply filter_ext. intros r.
    destruct (mem_Z (ss_stories_id r) ids) eqn:E1,
             (mem_Z (ss_stories_id r) ids') eqn:E2; auto.
    - apply mem_Z_In, H, mem_Z_In in E1. congruence.
    - apply mem_Z_In, H, mem_Z_In in E2. congruence. }
  now rewrite E.
Qed.

Lemma hd_filter_key {A : Type} (f : A -> Z) (l : list A) (x : A) :
  NoDup (map f l) -> In x l ->
  hd_error (filter (fun y => mem_Z (f y) [f x]) l) = Some x.
Proof.
  intros Hnd Hx.
  destruct (filter (fun y => mem_Z (f y) [f x]) l) as [| h t] eqn:E.
  - assert (H : In x (filter (fun y => mem_Z (f y) [f x]) l)).
    { apply filter_In. split; [exact Hx |]. apply mem_Z_In. now left. }
    rewrite E in H. destruct H.
  - assert (H : In h (filter (fun y => mem_Z (f y) [f x]) l))
      by (rewrite E; now left).
    apply filter_In in H. destruct H as [Hh Hm]. apply mem_Z_In in Hm.
    destruct Hm as [Hm | []]. simpl. f_equal.
    now apply (NoDup_map_inj f l).
Qed.

(** What [_get_story_with_most_sentences] returns on candidates that are rows
    of a store with unique story identifiers. *)
Lemma most_sentences_spec (l : list story) (w : world) :
  l <> [] ->
  (forall s, In s l -> In s (t_stories (db w))) ->
  NoDup (map stories_id (t_stories (db w))) ->
  exists s w',
    _get_story_with_most_sentences l w = (Ok s, w')
    /\ In s l
    /\ (forall c, In c l -> sentences_of (db w) c <= sentences_of (db w) s)
    /\ (List.length l = 1%nat \/ (forall c, In c l -> sentences_of (db w) c = 0)
        -> hd_error l = Some s).
Proof.
  intros Hne Hrows Hkey. destruct l as [| c rest]; [congruence |].
  destruct rest as [| c' rest].
  - exists c, w. repeat split; auto.
    + now left.
    + intros x [<- | []]. lia.
  - set (l := c :: c' :: rest) in *.
    unfold _get_story_with_most_sentences.
    change (py_assert (0 <? List.length l)%nat) with (@ret unit tt).
    change (List.length l =? 1)%nat with false. cbv iota.
    unfold bind at 1. unfold ret at 1. unfold bind at 1.
    rewrite db_query_run. simpl db. unfold q_most_sentences, hash.
    destruct (q_top_sentence_ids_spec (db w) (map stories_id l))
      as [[E Hzero] | (top & E & Hin & Hpos & Hmax)]; rewrite E.
    + assert (F : filter (fun s => mem_Z (stories_id s) []) (t_stories (db w)) = []).
      { clear. induction (t_stories (db w)); simpl; auto. }
      rewrite F. simpl. eexists c, _. split; [reflexivity |].
      assert (Z0 : forall x, In x l -> sentences_of (db w) x = 0).
      { intros x Hx. apply Hzero. now apply in_map. }
      split; [now left |]. split; [| reflexivity].
      intros x Hx. rewrite (Z0 x Hx), (Z0 c) by now left. lia.
    + apply in_map_iff in Hin. destruct Hin as (c0 & <- & Hc0).
      rewrite (hd_filter_key stories_id _ c0 Hkey (Hrows _ Hc0)).
      eexists c0, _. split; [reflexivity |]. split; [exact Hc0 |]. split.
      * intros x Hx. apply Hmax. now apply in_map.
      * intros [Hlen | Hz]; [discriminate |].
        specialize (Hz c0 Hc0). unfold sentences_of in Hz. lia.
Qed.

(** The selector on consistent candidates: it returns, the story it returns
    is a candidate of the top-ranked source, and among those candidates it
    has the most sentences. *)
Lemma get_preferred_story_spec (C : collaborators) (stories : list story)
    (w : world) :
  stories <> [] ->
  store_consistent (db w) stories ->
  exists s w' top,
    get_preferred_story C stories w = (Ok s, w')
    /\ top_ranked_source C (db w) stories = Some top
    /\ let l := stories_of_source (m_media_id (rm_row top)) stories in
       In s l
       /\ (forall c, In c l -> sentences_of (db w) c <= sentences_of (db w) s)
       /\ (List.length l = 1%nat \/ (forall c, In c l -> sentences_of (db w) c = 0)
           -> hd_error l = Some s).
Proof.
  intros Hne [Hrows Hskey Hmkey Hmref].
  destruct stories as [| a rest]; [congruence |].
  destruct (top_ranked_exists C (db w) (a :: rest) a) as [top Htop];
    [now left | apply Hmref; now left |].
  destruct (top_ranked_least C _ _ _ Htop) as [(m & Em & Hm & Hid) _].
  assert (Hl : rm_stories top = stories_of_source (m_media_id (rm_row top)) (a :: rest))
    by (subst top; reflexivity).
  destruct rest as [| b rest].
  - exists a, w, top. split; [reflexivity |]. split; [exact Htop |].
    assert (Ea : media_id a = m_media_id (rm_row top)).
    { subst top. simpl in Hid |- *. destruct Hid as [Hid | []]. congruence. }
    cbv zeta. unfold stories_of_source. simpl. rewrite Ea, Z.eqb_refl.
    repeat split; auto.
    + now left.
    + intros c [<- | []]. lia.
  - rewrite get_preferred_story_run. rewrite Htop.
    set (w1 := mkWorld _ _ _).
    destruct (most_sentences_spec (rm_stories top) w1) as (s & w' & Hrun & Hs).
    + rewrite Hl. apply in_map_iff in Hid. destruct Hid as (s0 & E0 & Hs0).
      intros Hnil.
      assert (H : In s0 (stories_of_source (m_media_id (rm_row top)) (a :: b :: rest))).
      { apply filter_In. split; [exact Hs0 |]. subst top. simpl.
        now apply Z.eqb_eq. }
      rewrite Hnil in H. destruct H.
    + intros s Hs. apply Hrows. rewrite Hl in Hs. apply filter_In in Hs. tauto.
    + exact Hskey.
    + exists s, w', top. split; [exact Hrun |]. split; [reflexivity |].
      cbv zeta. rewrite <- Hl. exact Hs.
Qed.

Lemma sql_is_dup_target_true (d : database) (m : medium) :
  sql_is_dup_target d m = true
  <-> exists d', In d' (t_media d) /\ dup_media_id d' = Some (m_media_id m).
Proof.
  unfold sql_is_dup_target. rewrite existsb_exists.
  split; intros (d' & Hd & E); exists d'; split; auto.
  - destruct (dup_media_id d') as [x |]; simpl in E; [| discriminate].
    apply Z.eqb_eq in E. now subst.
  - rewrite E. simpl. apply Z.eqb_refl.
Qed.

Lemma stories_of_source_In (mid : Z) (stories : list story) (s : story) :
  In s (stories_of_source mid stories) <-> In s stories /\ media_id s = mid.
Proof. unfold stories_of_source. now rewrite filter_In, Z.eqb_eq. Qed.

(** ** The selector on several candidates *)

(** C5 (as amended): among the candidates of the top-ranked source,
    [get_preferred_story] returns one with the maximum sentence count; when
    that source has a single candidate, or none of its candidates has a
    sentence so that the aggregate lookup yields nothing, it returns the
    first candidate of that source in candidate order. *)
Theorem get_preferred_story_most_sentences (C : collaborators)
    (stories : list story) (w : world) :
  stories <> [] ->
  store_consistent (db w) stories ->
  exists s w' top,
    get_preferred_story C stories w = (Ok s, w')
    /\ top_ranked_source C (db w) stories = Some top
    /\ let l := stories_of_source (m_media_id (rm_row top)) stories in
       In s l
       /\ (forall c, In c l -> sentences_of (db w) c <= sentences_of (db w) s)
       /\ (List.length l = 1%nat \/ (forall c, In c l -> sentences_of (db w) c = 0)
           -> hd_error l = Some s).
Proof. intros Hne Hc. exact (get_preferred_story_spec C stories w Hne Hc). Qed.

(** C3: when the candidates come from two sources that agree on every
    ranking attribute except that one of them is the target of another
    source's [dup_media_id] and the other is not, [get_preferred_story]
    returns a story of the duplication target, whichever of the two has the
    lower [media_id]. *)
Theorem dup_target_source_preferred (C : collaborators) (stories : list story)
    (w : world) (m1 m2 : medium) :
  store_consistent (db w) stories ->
  In m1 (t_media (db w)) -> In m2 (t_media (db w)) ->
  (forall s, In s stories ->
     media_id s = m_media_id m1 \/ media_id s = m_media_id m2) ->
  (exists s, In s stories /\ media_id s = m_media_id m1) ->
  (exists s, In s stories /\ media_id s = m_media_id m2) ->
  (forall d, In d (t_media (db w)) -> dup_media_id d <> Some (m_media_id d)) ->
  (exists d, In d (t_media (db w)) /\ m_media_id d <> m_media_id m1
             /\ dup_media_id d = Some (m_media_id m1)) ->
  (forall d, In d (t_media (db w)) -> m_media_id d <> m_media_id m2 ->
     dup_media_id d <> Some (m_media_id m2)) ->
  truthy (dup_media_id m1) = truthy (dup_media_id m2) ->
  _url_domain_matches_medium C m1 (map url stories)
  = _url_domain_matches_medium C m2 (map url stories) ->
  exists s w',
    get_preferred_story C stories w = (Ok s, w')
    /\ In s stories /\ media_id s = m_media_id m1.
Proof.
  intros Hc Hm1 Hm2 Htwo (s1 & Hs1 & Es1) _ Hself (d1 & Hd1 & _ & Ed1) Hnot2
         Hdup Hdom.
  assert (Hne : stories <> []) by (intros ->; destruct Hs1).
  destruct (get_preferred_story_spec C stories w Hne Hc)
    as (s & w' & top & Hrun & Htop & Hin & _).
  apply stories_of_source_In in Hin. destruct Hin as [Hin Hmid].
  exists s, w'. repeat split; auto. rewrite Hmid.
  destruct (top_ranked_least C _ _ _ Htop) as [(m & -> & Hm & Hid) Hleast].
  simpl. apply in_map_iff in Hid. destruct Hid as (s0 & Es0 & Hs0).
  destruct (Htwo s0 Hs0) as [E | E]; [congruence |].
  assert (m = m2).
  { apply (NoDup_map_inj m_media_id (t_media (db w))); auto.
    - apply Hc.
    - congruence. }
  subst m. exfalso.
  assert (T1 : sql_is_dup_target (db w) m1 = true)
    by (apply sql_is_dup_target_true; eauto).
  assert (T2 : sql_is_dup_target (db w) m2 = false).
  { destruct (sql_is_dup_target (db w) m2) eqn:T; [| reflexivity].
    apply sql_is_dup_target_true in T. destruct T as (d & Hd & Ed).
    destruct (Z.eq_dec (m_media_id d) (m_media_id m2)) as [Eid | Nid].
    - exfalso. apply (Hself d Hd). congruence.
    - exfalso. exact (Hnot2 d Hd Nid Ed). }
  specialize (Hleast m1 Hm1).
  assert (Hid1 : In (m_media_id m1) (map media_id stories))
    by (rewrite <- Es1; now apply in_map).
  specialize (Hleast Hid1). unfold ranked, rank_medium, itemgetter in Hleast.
  simpl in Hleast. rewrite T1, T2 in Hleast. simpl in Hleast. discriminate.
Qed.

(** The rows the variant-set query returns are rows of the store whose
    source has a row, so they are consistent candidates whenever the store
    keeps its keys. *)
Lemma q_story_match_consistent (d : database) (urls : list string) :
  NoDup (map stories_id (t_stories d)) ->
  NoDup (map m_media_id (t_media d)) ->
  store_consistent d (q_story_match d urls).
Proof.
  intros Hs Hm.
  assert (Heq : forall a b, story_eqb a b = true -> a = b).
  { intros a b. unfold story_eqb. now destruct (story_eq_dec a b). }
  assert (Hin : forall s, In s (q_story_match d urls) ->
                          In s (t_stories d) /\ joins_plain_medium d s = true).
  { intros s H. unfold q_story_match in H.
    apply (proj1 (In_dedup _ _ _ Heq)) in H. apply in_app_or in H.
    destruct H as [H | H]; apply (proj1 (In_dedup _ _ _ Heq)), filter_In in H;
      destruct H as [H1 H2]; apply andb_true_iff in H2; tauto. }
  constructor; auto.
  - intros s H. now apply Hin.
  - intros s H. apply Hin in H. destruct H as [_ H].
    unfold joins_plain_medium in H. apply existsb_exists in H.
    destruct H as (m & Hm' & E). apply andb_true_iff in E.
    destruct E as [E _]. apply Z.eqb_eq in E. rewrite E. now apply in_map.
Qed.

(** ** The date-guess tag classifier *)

Lemma find_or_create_tag_sets_run (name : string) (w : world) :
  exists ts w',
    db_find_or_create_tag_sets name w = (Ok ts, w')
    /\ time w' = time w
    /\ In ts (t_tag_sets (db w')) /\ ts_name ts = name
    /\ t_tags (db w') = t_tags (db w)
    /\ t_stories_tags_map (db w') = t_stories_tags_map (db w).
Proof.
  unfold db_find_or_create_tag_sets, bind, log, get_db, put_db, ret. simpl.
  destruct (find _ (t_tag_sets (db w))) as [ts |] eqn:F.
  - apply find_some in F. destruct F as [Hin E]. apply String.eqb_eq in E.
    eexists ts, _. split; [reflexivity |]. simpl. auto.
  - eexists _, _. split; [reflexivity |]. simpl. repeat split; auto.
    apply in_or_app. right. now left.
Qed.

Lemma find_or_create_tags_run (name : string) (tsid : Z) (w : world) :
  exists t w',
    db_find_or_create_tags name tsid w = (Ok t, w')
    /\ time w' = time w
    /\ In t (t_tags (db w')) /\ t_tag t = name /\ t_tag_sets_id t = tsid
    /\ t_tag_sets (db w') = t_tag_sets (db w)
    /\ t_stories_tags_map (db w') = t_stories_tags_map (db w).
Proof.
  unfold db_find_or_create_tags, bind, log, get_db, put_db, ret. simpl.
  destruct (find _ (t_tags (db w))) as [t |] eqn:F.
  - apply find_some in F. destruct F as [Hin E].
    apply andb_true_iff in E. destruct E as [E1 E2].
    apply String.eqb_eq in E1. apply Z.eqb_eq in E2.
    eexists t, _. split; [reflexivity |]. simpl. repeat split; auto.
  - eexists _, _. split; [reflexivity |]. simpl. repeat split; auto.
    apply in_or_app. right. now left.
Qed.

Lemma assign_date_guess_tag_run (s : story)
    (g : GuessDateResult) (fb : option pydate) (w : world) :
  exists w',
    assign_date_guess_tag s g fb w = (Ok tt, w')
    /\ time w' = time w
    /\ attaches w w' (stories_id s) (fst (date_guess_tag_names g fb))
                (snd (date_guess_tag_names g fb)).
Proof.
  unfold assign_date_guess_tag.
  destruct (date_guess_tag_names g fb) as [tag_set_name tag_name]. simpl.
  destruct (find_or_create_tag_sets_run tag_set_name w)
    as (ts & w1 & E1 & T1 & Hts & Nts & Tg1 & Mp1).
  rewrite (bind_ok _ _ _ _ _ E1).
  destruct (find_or_create_tags_run tag_name (tag_sets_id ts) w1)
    as (t & w2 & E2 & T2 & Ht & Nt & St & Ts2 & Mp2).
  rewrite (bind_ok _ _ _ _ _ E2).
  unfold db_create_stories_tags_map, bind, log, get_db, put_db, ret. simpl.
  eexists. split; [reflexivity |]. simpl. split; [congruence |].
  exists ts, t. simpl. rewrite Ts2. repeat split; auto. congruence.
Qed.

Lemma prefix_app (p s : string) :
  String.prefix p s = true <-> exists rest, s = (p ++ rest)%string.
Proof.
  revert s. induction p as [| a p IH]; intros s.
  - split; [intros _; now exists s | intros _; now destruct s].
  - destruct s as [| b s]; simpl.
    + split; [discriminate | intros [r E]; discriminate].
    + destruct (ascii_dec a b) as [-> | N].
      * rewrite IH. split; intros [r E]; exists r; congruence.
      * split; [discriminate | intros [r E]; congruence].
Qed.

Lemma word_run_app (name post : string) :
  (forall c, In c (list_ascii_of_string name) -> is_word_char c = true) ->
  (forall c post', post = String c post' -> is_word_char c = false) ->
  word_run (name ++ post) = name.
Proof.
  intros Hw Hp. induction name as [| a name IH]; simpl.
  - destruct post as [| c post']; [reflexivity |]. simpl.
    now rewrite (Hp c post' eq_refl).
  - rewrite (Hw a) by now left. f_equal. apply IH.
    intros c Hc. apply Hw. now right.
Qed.

Lemma re_search_tag_skip (pre rest : string) :
  (forall p c q, pre = (p ++ String "<" (String c q))%string ->
                 is_word_char c = false) ->
  re_search_tag (pre ++ String "<" rest) = re_search_tag (String "<" rest).
Proof.
  induction pre as [| a pre IH]; intros H; [reflexivity |].
  assert (H' : forall p c q, pre = (p ++ String "<" (String c q))%string ->
                             is_word_char c = false).
  { intros p c q E. apply (H (String a p) c q). simpl. now rewrite E. }
  change (String a pre ++ String "<" rest)%string
    with (String a (pre ++ String "<" rest)).
  cbn [re_search_tag]. rewrite (IH H').
  destruct (Ascii.eqb a "<") eqn:Ea; [| reflexivity].
  apply Ascii.eqb_eq in Ea. subst a.
  destruct pre as [| c q]; [reflexivity |].
  change (String c q ++ String "<" rest)%string
    with (String c (q ++ String "<" rest)).
  cbn [word_run]. now rewrite (H EmptyString c q eq_refl).
Qed.

Lemma re_search_tag_names (method name : string) :
  names_tag method name -> re_search_tag method = Some name.
Proof.
  intros (pre & post & -> & Hne & Hw & Hp & Hpre).
  rewrite (re_search_tag_skip _ _ Hpre). cbn [re_search_tag].
  change (Ascii.eqb "<" "<") with true. cbv iota.
  rewrite (word_run_app _ _ Hw Hp). destruct name; [congruence | reflexivity].
Qed.

Lemma re_search_tag_none (method : string) :
  names_no_tag method -> re_search_tag method = None.
Proof.
  unfold names_no_tag. induction method as [| a s IH]; intros H; [reflexivity |].
  assert (H' : forall p c q, s = (p ++ String "<" (String c q))%string ->
                             is_word_char c = false).
  { intros p c q E. apply (H (String a p) c q). simpl. now rewrite E. }
  cbn [re_search_tag]. rewrite (IH H').
  destruct (Ascii.eqb a "<") eqn:Ea; [| reflexivity].
  apply Ascii.eqb_eq in Ea. subst a.
  destruct s as [| c q]; [reflexivity |].
  cbn [word_run]. now rewrite (H EmptyString c q eq_refl).
Qed.

(** C7: [assign_date_guess_tag] attaches exactly the tag of the table: a
    date found by url gets [date_guess_method:guess_by_url]; a date found in
    an html tag gets [date_guess_method:guess_by_tag_<name>], with [unknown]
    for the name when the method names no tag; a date found otherwise gets
    [date_guess_method:guess_by_unknown]; no date with a fallback date gets
    [date_guess_method:fallback_date]; no date and no fallback gets
    [date_invalid:date_invalid]. *)
Theorem assign_date_guess_tag_table (s : story)
    (g : GuessDateResult) (fb : option pydate) (w : world) :
  let by_url := exists rest, guess_method g = ("Extracted from url" ++ rest)%string in
  let by_tag := exists rest, guess_method g = ("Extracted from tag" ++ rest)%string in
  exists w',
    assign_date_guess_tag s g fb w = (Ok tt, w')
    /\ (found g = true -> by_url ->
        attaches w w' (stories_id s) "date_guess_method" "guess_by_url")
    /\ (found g = true -> by_tag ->
        forall name, names_tag (guess_method g) name ->
        attaches w w' (stories_id s) "date_guess_method" ("guess_by_tag_" ++ name))
    /\ (found g = true -> by_tag -> names_no_tag (guess_method g) ->
        attaches w w' (stories_id s) "date_guess_method" "guess_by_tag_unknown")
    /\ (found g = true -> ~ by_url -> ~ by_tag ->
        attaches w w' (stories_id s) "date_guess_method" "guess_by_unknown")
    /\ (found g = false -> fb <> None ->
        attaches w w' (stories_id s) "date_guess_method" "fallback_date")
    /\ (found g = false -> fb = None ->
        attaches w w' (stories_id s) "date_invalid" "date_invalid").
Proof.
  intros by_url by_tag.
  destruct (assign_date_guess_tag_run s g fb w) as (w' & Hrun & _ & Hatt).
  exists w'. split; [exact Hrun |].
  unfold date_guess_tag_names, startswith in Hatt.
  assert (Tag_not_url : by_tag ->
            String.prefix "Extracted from url" (guess_method g) = false).
  { intros [rest E]. rewrite E. reflexivity. }
  repeat split.
  - intros F U. rewrite F in Hatt. apply prefix_app in U.
    now rewrite U in Hatt.
  - intros F T name Hn. rewrite F, (Tag_not_url T) in Hatt.
    apply prefix_app in T. rewrite T in Hatt.
    now rewrite (re_search_tag_names _ _ Hn) in Hatt.
  - intros F T Hn. rewrite F, (Tag_not_url T) in Hatt.
    apply prefix_app in T. rewrite T in Hatt.
    now rewrite (re_search_tag_none _ Hn) in Hatt.
  - intros F U T. rewrite F in Hatt.
    destruct (String.prefix "Extracted from url" (guess_method g)) eqn:PU;
      [apply prefix_app in PU; contradiction |].
    destruct (String.prefix "Extracted from tag" (guess_method g)) eqn:PT;
      [apply prefix_app in PT; contradiction |].
    exact Hatt.
  - intros F Hfb. rewrite F in Hatt. destruct fb; [exact Hatt | congruence].
  - intros F ->. now rewrite F in Hatt.
Qed.

(** ** The story synthesizer *)

(** Runs the database writes of a goal. *)
Ltac run_writes :=
  cbv [db_create_stories db_create_stories_tags_map db_create_feeds_stories_map
       db_create_feeds db_create_downloads create_download_for_new_story
       bind log get_db put_db ret];
  cbn [db time trace fst snd].

Ltac run_writes_in E :=
  cbv [db_create_stories db_create_stories_tags_map db_create_feeds_stories_map
       db_create_feeds db_create_downloads create_download_for_new_story
       bind log get_db put_db ret] in E;
  cbn [db time trace fst snd] in E.

Lemma call_keeps_time {A : Type} (c : collaborator A) :
  succeeds c -> keeps_time (call c) (fun _ => True).
Proof.
  intros H w. destruct (H (db w)) as (a & d' & E).
  exists a. unfold call. rewrite E. eexists.
  split; [reflexivity | split; [reflexivity | exact I]].
Qed.

Lemma get_spider_feed_keeps_time (m : medium) :
  keeps_time (get_spider_feed m) (fun _ => True).
Proof.
  intros w. unfold get_spider_feed. unfold bind at 1. rewrite db_query_run.
  destruct (q_spider_feed _ _) as [f |]; run_writes.
  - eexists _, _. split; [reflexivity | split; [reflexivity | exact I]].
  - eexists _, _. split; [reflexivity | split; [reflexivity | exact I]].
Qed.

Lemma db_create_stories_keeps_time (sd : story_dict) :
  keeps_time (db_create_stories sd)
    (fun s => url s = sd_url sd /\ guid s = sd_guid sd /\ title s = sd_title sd
              /\ publish_date s = sd_publish_date sd).
Proof.
  intros w. run_writes. eexists _, _. split; [reflexivity |]. simpl.
  repeat split.
Qed.

Lemma create_download_keeps_time (C : collaborators) (s : story) (f : feed) :
  keeps_time (create_download_for_new_story C s f) (fun _ => True).
Proof.
  intros w. run_writes.
  eexists _, _. split; [reflexivity | split; [reflexivity | exact I]].
Qed.

Lemma datetime_now_run (C : collaborators) (w : world) :
  datetime_now C w = (Ok (time w), mkWorld (db w) (tick C (time w)) (trace w)).
Proof. reflexivity. Qed.

(** C8: when its collaborators do not fail, [add_new_story] returns a story
    whose [publish_date] is the guessed date if the date guesser found one,
    else the fallback date if one was given, else the ISO string of the clock
    reading taken at that point (the second of the call). *)
Theorem add_new_story_publish_date (C : collaborators) (url content : string)
    (fallback_date : option pydate) (w : world) :
  (forall u, succeeds (guess_medium C u)) ->
  succeeds (get_spidered_tag C) ->
  (forall dl c, succeeds (store_content C dl c)) ->
  let date_guess := guess_date C (slice_to _MAX_URL_LENGTH url) content in
  exists s w',
    add_new_story C url content fallback_date w = (Ok s, w')
    /\ (found date_guess = true ->
        forall d, date date_guess = Some d -> publish_date s = Some d)
    /\ (found date_guess = false ->
        forall d, fallback_date = Some d -> publish_date s = Some d)
    /\ (found date_guess = false -> fallback_date = None ->
        publish_date s = Some (PyIsoString (isoformat C (tick C (time w))))).
Proof.
  intros Hgm Htag Hsc date_guess. unfold add_new_story. fold date_guess.
  destruct (call_keeps_time _ (Hgm (slice_to _MAX_URL_LENGTH url)) w)
    as (m & w1 & E1 & T1 & _).
  rewrite (bind_ok _ _ _ _ _ E1).
  destruct (get_spider_feed_keeps_time m w1) as (f & w2 & E2 & T2 & _).
  rewrite (bind_ok _ _ _ _ _ E2).
  destruct (call_keeps_time _ Htag w2) as (sp & w3 & E3 & T3 & _).
  rewrite (bind_ok _ _ _ _ _ E3).
  rewrite (bind_ok _ _ _ _ _ (datetime_now_run C w3)).
  set (w4 := mkWorld (db w3) (tick C (time w3)) (trace w3)).
  set (sd0 := set_sd_publish_date _ _).
  assert (Hdate : exists sd w5,
            (match sd_publish_date sd0 with
             | None =>
                 bind (datetime_now C)
                   (fun now => ret (set_sd_publish_date sd0
                                      (Some (PyIsoString (isoformat C now)))))
             | Some _ => ret sd0
             end) w4 = (Ok sd, w5)
            /\ sd_publish_date sd
               = match (if found date_guess then date date_guess else fallback_date) with
                 | Some d => Some d
                 | None => Some (PyIsoString (isoformat C (tick C (time w))))
                 end).
  { subst sd0. simpl sd_publish_date.
    destruct (if found date_guess then date date_guess else fallback_date).
    - eexists _, _. split; reflexivity.
    - eexists _, _. split; [reflexivity |]. simpl. congruence. }
  destruct Hdate as (sd & w5 & E5 & Hpd).
  rewrite (bind_ok _ _ _ _ _ E5).
  destruct (db_create_stories_keeps_time sd w5) as (s & w6 & E6 & _ & Hs).
  rewrite (bind_ok _ _ _ _ _ E6).
  unfold bind at 1.
  destruct (db_create_stories_tags_map _ _ w6) as [r7 w7] eqn:E7.
  assert (r7 = Ok tt) by (inversion E7; reflexivity). subst r7.
  destruct (assign_date_guess_tag_run s date_guess fallback_date w7)
    as (w8 & E8 & _).
  rewrite (bind_ok _ _ _ _ _ E8).
  unfold bind at 1.
  destruct (db_create_feeds_stories_map _ _ w8) as [r9 w9] eqn:E9.
  assert (r9 = Ok tt) by (inversion E9; reflexivity). subst r9.
  destruct (create_download_keeps_time C s f w9) as (dl & w10 & E10 & _).
  rewrite (bind_ok _ _ _ _ _ E10).
  destruct (call_keeps_time _ (Hsc dl content) w10) as (dl' & w11 & E11 & _).
  rewrite (bind_ok _ _ _ _ _ E11).
  exists s, w11. split; [reflexivity |].
  destruct Hs as (_ & _ & _ & Hs). rewrite Hs, Hpd.
  repeat split.
  - intros F d D. now rewrite F, D.
  - intros F d D. now rewrite F, D.
  - intros F D. now rewrite F, D.
Qed.

Lemma length_slice_to (n : nat) (s : string) :
  (String.length (slice_to n s) <= n)%nat.
Proof.
  revert s. induction n as [| n IH]; intros [| c s]; simpl; try lia.
  specialize (IH s). lia.
Qed.

Lemma length_strip_nul (s : string) :
  (String.length (strip_nul s) <= String.length s)%nat.
Proof.
  induction s as [| c s IH]; simpl; [lia |].
  destruct (Ascii.eqb c zero); simpl; lia.
Qed.

Lemma no_nul_strip_nul (s : string) : no_nul (strip_nul s).
Proof.
  unfold no_nul. induction s as [| c s IH]; simpl; [tauto |].
  destruct (Ascii.eqb c zero) eqn:E; [exact IH |].
  simpl. intros [H | H]; [| exact (IH H)].
  subst c. discriminate.
Qed.

Section Creates.
Context {P : story_dict -> Prop}.

Lemma creates_ret {A : Type} (Q : A -> Prop) (a : A) :
  Q a -> creates P Q (ret a).
Proof.
  intros H w r w' E. inversion E; subst. split.
  - exists []. split; [reflexivity | intros sd []].
  - intros a' Ea. now inversion Ea; subst.
Qed.

Lemma creates_bind {A B : Type} (Q1 : A -> Prop) (Q2 : B -> Prop)
    (m : M A) (k : A -> M B) :
  creates P Q1 m -> (forall a, Q1 a -> creates P Q2 (k a)) ->
  creates P Q2 (bind m k).
Proof.
  intros Hm Hk w r w' E. unfold bind in E.
  destruct (m w) as [[a | e] w1] eqn:E1.
  - destruct (Hm _ _ _ E1) as [(evs1 & T1 & P1) Q].
    destruct (Hk a (Q a eq_refl) _ _ _ E) as [(evs2 & T2 & P2) Q'].
    split; [| exact Q'].
    exists (evs2 ++ evs1). split.
    + rewrite T2, T1. now rewrite app_assoc.
    + intros sd H. apply in_app_or in H. destruct H; auto.
  - inversion E; subst. destruct (Hm _ _ _ E1) as [H _].
    split; [exact H | discriminate].
Qed.

Lemma creates_weaken {A : Type} (Q Q' : A -> Prop) (m : M A) :
  (forall a, Q a -> Q' a) -> creates P Q m -> creates P Q' m.
Proof.
  intros HQ Hm w r w' E. destruct (Hm _ _ _ E) as [H1 H2].
  split; [exact H1 | intros a Ea; apply HQ, H2, Ea].
Qed.

Lemma creates_silent {A : Type} (m : M A) :
  (forall w, trace (snd (m w)) = trace w) -> creates P (fun _ => True) m.
Proof.
  intros H w r w' E. split; [| trivial].
  exists []. specialize (H w). rewrite E in H. simpl in H.
  split; [exact H | intros sd []].
Qed.

Lemma creates_call {A : Type} (c : collaborator A) :
  creates P (fun _ => True) (call c).
Proof.
  apply creates_silent. intros w. unfold call.
  destruct (c (db w)) as [[a d] | e]; reflexivity.
Qed.

Lemma creates_log (e : event) :
  (forall sd, e = CreateStory sd -> P sd) -> creates P (fun _ => True) (log e).
Proof.
  intros H w r w' E. inversion E; subst. split; [| trivial].
  exists [e]. split; [reflexivity |].
  intros sd [Hsd | []]. now apply H.
Qed.

Lemma creates_db_query {A X : Type} (ev : X -> event) (q : database -> X -> A)
    (p : X) :
  (forall sd, ev p <> CreateStory sd) ->
  creates P (fun _ => True) (db_query ev q p).
Proof.
  intros H w r w' E. rewrite db_query_run in E. inversion E; subst.
  split; [| trivial]. exists [ev p]. split; [reflexivity |].
  intros sd [Hsd | []]. now apply H in Hsd.
Qed.

End Creates.

(** Settles [creates] for a write that records one event other than the
    creation of a story. *)
Ltac creates_one :=
  let w := fresh "w" in
  let r := fresh "r" in
  let w' := fresh "w'" in
  let E := fresh "E" in
  let sd := fresh "sd" in
  let H := fresh "H" in
  intros w r w' E; run_writes_in E; inversion E; subst; cbn [trace];
  split; [eexists [_]; split; [reflexivity |];
          intros sd [H | []]; discriminate
         | trivial].

Lemma creates_stories_tags_map (P : story_dict -> Prop) (sid tid : Z) :
  creates P (fun _ => True) (db_create_stories_tags_map sid tid).
Proof. creates_one. Qed.

Lemma creates_feeds_stories_map (P : story_dict -> Prop) (sid fid : Z) :
  creates P (fun _ => True) (db_create_feeds_stories_map sid fid).
Proof. creates_one. Qed.

Lemma creates_feeds (P : story_dict -> Prop) (mid : Z) (u n st : string) :
  creates P (fun _ => True) (db_create_feeds mid u n st).
Proof. creates_one. Qed.

Lemma creates_download (P : story_dict -> Prop) (C : collaborators)
    (s : story) (f : feed) :
  creates P (fun _ => True) (create_download_for_new_story C s f).
Proof. creates_one. Qed.

Lemma creates_tag_sets (P : story_dict -> Prop) (name : string) :
  creates P (fun _ => True) (db_find_or_create_tag_sets name).
Proof.
  intros w r w' E. unfold db_find_or_create_tag_sets in E.
  run_writes_in E.
  match type of E with context [find ?f ?l] => destruct (find f l) end;
    inversion E; subst; cbn [trace];
    (split; [eexists [_]; split; [reflexivity |];
             intros sd [H | []]; discriminate | trivial]).
Qed.

Lemma creates_tags (P : story_dict -> Prop) (name : string) (tsid : Z) :
  creates P (fun _ => True) (db_find_or_create_tags name tsid).
Proof.
  intros w r w' E. unfold db_find_or_create_tags in E.
  run_writes_in E.
  match type of E with context [find ?f ?l] => destruct (find f l) end;
    inversion E; subst; cbn [trace];
    (split; [eexists [_]; split; [reflexivity |];
             intros sd [H | []]; discriminate | trivial]).
Qed.

Lemma creates_assign (P : story_dict -> Prop) (s : story)
    (g : GuessDateResult) (fb : option pydate) :
  creates P (fun _ => True) (assign_date_guess_tag s g fb).
Proof.
  unfold assign_date_guess_tag. destruct (date_guess_tag_names g fb) as [a b].
  eapply creates_bind; [apply creates_tag_sets | intros ts _].
  eapply creates_bind; [apply creates_tags | intros t _].
  apply creates_stories_tags_map.
Qed.

Lemma creates_spider_feed (P : story_dict -> Prop) (m : medium) :
  creates P (fun _ => True) (get_spider_feed m).
Proof.
  unfold get_spider_feed.
  eapply creates_bind; [apply creates_db_query; discriminate | intros [f |] _].
  - now apply creates_ret.
  - apply creates_feeds.
Qed.

Lemma creates_story (sd : story_dict) :
  dict_within_limits sd ->
  creates dict_within_limits story_within_limits (db_create_stories sd).
Proof.
  intros H w r w' E. run_writes_in E. inversion E; subst; cbn [trace]. split.
  - eexists [_]. split; [reflexivity |].
    intros sd' [Hsd | []]. now inversion Hsd; subst.
  - intros a Ea. inversion Ea; subst. exact H.
Qed.

(** C9: every story dict [add_new_story] hands to the store for creation,
    and the story it returns, has a url and a guid of at most
    [_MAX_URL_LENGTH] characters and no null character in url, guid or
    title. *)
Theorem add_new_story_within_limits (C : collaborators) (url content : string)
    (fallback_date : option pydate) (w w' : world) (r : result story) :
  add_new_story C url content fallback_date w = (r, w') ->
  (exists evs, trace w' = evs ++ trace w
               /\ forall sd, In (CreateStory sd) evs -> dict_within_limits sd)
  /\ (forall s, r = Ok s -> story_within_limits s).
Proof.
  revert w r w'. change (creates dict_within_limits story_within_limits
                           (add_new_story C url content fallback_date)).
  unfold add_new_story.
  pose proof (length_slice_to _MAX_URL_LENGTH url) as Hlen.
  set (u := slice_to _MAX_URL_LENGTH url) in *. clearbody u.
  eapply creates_bind; [apply creates_call | intros m _].
  eapply creates_bind; [apply creates_spider_feed | intros f _].
  eapply creates_bind; [apply creates_call | intros sp _].
  eapply creates_bind; [apply creates_silent; reflexivity | intros now _].
  set (sd0 := set_sd_publish_date _ _).
  assert (H0 : dict_within_limits sd0).
  { unfold dict_within_limits, sd0. simpl.
    pose proof (length_strip_nul u).
    repeat split; try apply no_nul_strip_nul; lia. }
  eapply creates_bind with (Q1 := dict_within_limits).
  { destruct (sd_publish_date sd0).
    - now apply creates_ret.
    - eapply creates_bind; [apply creates_silent; reflexivity | intros t _].
      apply creates_ret. exact H0. }
  intros sd Hsd.
  eapply creates_bind; [apply (creates_story sd Hsd) | intros s Hs].
  eapply creates_bind; [apply creates_stories_tags_map | intros _ _].
  eapply creates_bind; [apply creates_assign | intros _ _].
  eapply creates_bind; [apply creates_feeds_stories_map | intros _ _].
  eapply creates_bind; [apply creates_download | intros dl _].
  eapply creates_bind; [apply creates_call | intros dl' _].
  apply creates_ret. exact Hs.
Qed.

(** * Runs on the sample deployment *)

Import Sample.

Lemma db3_consistent : store_consistent db3 [st_a; st_b; st_c].
Proof.
  constructor; simpl.
  - intros s H. exact H.
  - repeat constructor; simpl; intuition discriminate.
  - repeat constructor; simpl; intuition discriminate.
  - intros s [<- | [<- | [<- | []]]]; simpl; auto.
Qed.

Lemma db_tie_consistent : store_consistent db_tie [st_b; st_c].
Proof.
  constructor; simpl.
  - intros s [<- | [<- | []]]; auto.
  - repeat constructor; simpl; intuition discriminate.
  - repeat constructor; simpl; intuition discriminate.
  - intros s [<- | [<- | []]]; simpl; auto.
Qed.

Lemma db_plain_consistent : store_consistent db_plain [st_d; st_b].
Proof.
  constructor; simpl.
  - intros s H. exact H.
  - repeat constructor; simpl; intuition discriminate.
  - repeat constructor; simpl; intuition discriminate.
  - intros s [<- | [<- | []]]; simpl; auto.
Qed.

(** With no story for the url, [get_story_match] raises. *)
Lemma get_story_match_no_match_raises_witness :
  get_story_match env "http://example.com/zzz" None (start db3)
  = (Raise AssertionError,
     mkWorld db3 5 [QStoryMatch ["http://example.com/zzz"]]).
Proof.
  apply (get_story_match_no_match_raises env "http://example.com/zzz" None
           (start db3) (start db3) false); reflexivity.
Defined.

(** C2 as stated fails: a redirect to a parked domain is ignored, and the
    effective redirect is then the empty string, which is queried for, and
    not the truncated url. *)
Lemma ignored_redirect_is_empty_string :
  let url := "http://example.com/a" in
  let redirect_url := Some "http://parked.biz/landing" in
  let u := slice_to _MAX_URL_LENGTH url in
  fst (ignore_redirect env url redirect_url (start db3)) = Ok true
  /\ effective_redirect true u redirect_url <> u
  /\ effective_redirect true u redirect_url = ""%string
  /\ In (QStoryMatch [u; ""%string])
        (trace (snd (get_story_match env url redirect_url (start db3)))).
Proof.
  cbv zeta. split; [reflexivity |]. split; [discriminate |].
  split; [reflexivity |]. vm_compute. auto.
Qed.

Lemma get_story_match_variant_set_witness :
  let w1 := mkWorld db3 5 [QIgnoreRedirect "http://parked.biz/"] in
  let urls := ["http://example.com/a"; ""]%string in
  get_story_match env "http://example.com/a" (Some "http://parked.biz/landing")
                  (start db3)
  = get_preferred_story env (q_story_match db3 urls)
      (mkWorld db3 5 (QStoryMatch urls :: trace w1)).
Proof.
  exact (proj2 (proj2
    (get_story_match_variant_set env "http://example.com/a"
       (Some "http://parked.biz/landing") (start db3)
       (mkWorld db3 5 [QIgnoreRedirect "http://parked.biz/"]) true
       eq_refl))).
Defined.

(** C5 as stated fails: stories 2 and 3 of medium 30 have one sentence each,
    story 2 comes first among the candidates, and story 3 is returned; the
    answer is the same for the candidates in the other order. *)
Lemma tie_not_first_candidate :
  sentences_of db_tie st_b = sentences_of db_tie st_c
  /\ hd_error (stories_of_source 30 [st_b; st_c]) = Some st_b
  /\ fst (get_preferred_story env [st_b; st_c] (start db_tie)) = Ok st_c
  /\ fst (get_preferred_story env [st_c; st_b] (start db_tie)) = Ok st_c
  /\ st_b <> st_c.
Proof. repeat split; try reflexivity. discriminate. Qed.

Lemma get_preferred_story_most_sentences_witness :
  exists s w' top,
    get_preferred_story env [st_a; st_b; st_c] (start db3) = (Ok s, w')
    /\ top_ranked_source env db3 [st_a; st_b; st_c] = Some top
    /\ let l := stories_of_source (m_media_id (rm_row top)) [st_a; st_b; st_c] in
       In s l
       /\ (forall c, In c l -> sentences_of db3 c <= sentences_of db3 s)
       /\ (List.length l = 1%nat \/ (forall c, In c l -> sentences_of db3 c = 0)
           -> hd_error l = Some s).
Proof.
  apply (get_preferred_story_most_sentences env [st_a; st_b; st_c] (start db3)).
  - discriminate.
  - exact db3_consistent.
Defined.

(** Medium 30 is a duplication target and medium 10, with the lower
    identifier, is not: a story of medium 30 is returned. *)
Lemma dup_target_source_preferred_witness :
  exists s w',
    get_preferred_story env [st_a; st_b; st_c] (start db3) = (Ok s, w')
    /\ In s [st_a; st_b; st_c] /\ media_id s = 30.
Proof.
  apply (dup_target_source_preferred env [st_a; st_b; st_c] (start db3) m30 m10).
  - exact db3_consistent.
  - simpl. auto.
  - simpl. auto.
  - intros s [<- | [<- | [<- | []]]]; simpl; auto.
  - exists st_b. simpl. auto.
  - exists st_a. simpl. auto.
  - intros d [<- | [<- | [<- | []]]]; simpl; discriminate.
  - exists m20. simpl. repeat split; auto. discriminate.
  - intros d [<- | [<- | [<- | []]]]; simpl; intros; discriminate.
  - reflexivity.
  - reflexivity.
Defined.

(** Peels one character off a candidate prefix of a literal. *)
Ltac no_tag_start :=
  let p := fresh "p" in
  let c := fresh "c" in
  let q := fresh "q" in
  let E := fresh "E" in
  intros p c q E;
  repeat (destruct p as [| ? p]; simpl in E;
          [discriminate | injection E as _ E]);
  destruct p; discriminate.

(** A date found in an [h1] tag is tagged [guess_by_tag_h1]. *)
Lemma assign_date_guess_tag_table_witness :
  let g := guess "http://example.com/a" "<h1>t</h1>" in
  exists w',
    assign_date_guess_tag st_a g None (start db3) = (Ok tt, w')
    /\ attaches (start db3) w' 1 "date_guess_method" "guess_by_tag_h1".
Proof.
  cbv zeta.
  destruct (assign_date_guess_tag_table st_a
              (guess "http://example.com/a" "<h1>t</h1>") None (start db3))
    as (w' & Hrun & _ & Htag & _).
  exists w'. split; [exact Hrun |].
  apply (Htag eq_refl).
  - exists (":<h1>t</h1>")%string. reflexivity.
  - exists ("Extracted from tag:")%string, (">t</h1>")%string.
    split; [reflexivity |]. split; [discriminate |]. split; [| split].
    + intros c [<- | [<- | []]]; reflexivity.
    + intros c post' E. inversion E. reflexivity.
    + no_tag_start.
Defined.

Lemma env_succeeds :
  (forall u, succeeds (guess_medium env u))
  /\ succeeds (get_spidered_tag env)
  /\ (forall dl c, succeeds (store_content env dl c)).
Proof.
  repeat split; intros; intros d; eexists _, _; reflexivity.
Qed.

(** Without a guessed date and without a fallback date the story gets the
    ISO string of the second clock reading. *)
Lemma add_new_story_publish_date_witness :
  exists s w',
    add_new_story env "http://example.com/new" "" None (start db3) = (Ok s, w')
    /\ publish_date s = Some (PyIsoString "T6").
Proof.
  destruct env_succeeds as (H1 & H2 & H3).
  destruct (add_new_story_publish_date env "http://example.com/new" "" None
              (start db3) H1 H2 H3) as (s & w' & E & _ & _ & H).
  exists s, w'. split; [exact E |]. apply H; reflexivity.
Defined.

(** A url with a null character is stored without it. *)
Lemma add_new_story_within_limits_witness :
  let run := add_new_story env url_nul "" None (start db3) in
  exists s, fst run = Ok s
            /\ url s = "http://example.com/n"%string
            /\ story_within_limits s
            /\ exists evs, trace (snd run) = evs ++ trace (start db3)
                 /\ forall sd, In (CreateStory sd) evs -> dict_within_limits sd.
Proof.
  cbv zeta.
  destruct (add_new_story env url_nul "" None (start db3)) as [r w'] eqn:E.
  destruct (add_new_story_within_limits env url_nul "" None (start db3) w' r E)
    as [Hev Hret].
  vm_compute in E. injection E as Er Ew. subst r w'.
  eexists. split; [reflexivity |]. split; [reflexivity |].
  split; [apply Hret; reflexivity | exact Hev].
Defined.

(** * Further properties of the module *)

(** ** The redirect policy *)

Lemma q_ignore_redirect_some (d : database) (u : string) :
  (exists x, q_ignore_redirect d u = Some x)
  <-> In u (t_topic_ignore_redirects d).
Proof.
  unfold q_ignore_redirect, hash.
  induction (t_topic_ignore_redirects d) as [| h t IH]; simpl.
  - split; [intros [x H]; discriminate | tauto].
  - destruct (String.eqb u h) eqn:E; simpl.
    + apply String.eqb_eq in E. split; [auto | intros _; now exists 1].
    + apply String.eqb_neq in E. rewrite IH. split; [auto |].
      intros [H | H]; [congruence | exact H].
Qed.

(** X1: [ignore_redirect] always answers and writes nothing; it answers
    true exactly when there is a redirect url other than the url whose
    normalized medium url is listed in [topic_ignore_redirects]; without a
    redirect url, or with one equal to the url, it does not even query. *)
Theorem ignore_redirect_answer (C : collaborators) (url : string)
    (redirect_url : option string) (w : world) :
  exists b w',
    ignore_redirect C url redirect_url w = (Ok b, w')
    /\ db w' = db w /\ time w' = time w
    /\ (b = true <->
        exists r, redirect_url = Some r /\ r <> url
          /\ In (normalize_url_lossy C
                   (fst (generate_medium_url_and_name_from_url C r)))
                (t_topic_ignore_redirects (db w)))
    /\ (redirect_url = None \/ redirect_url = Some url -> w' = w).
Proof.
  unfold ignore_redirect. destruct redirect_url as [r |].
  - destruct (String.eqb url r) eqn:E.
    + apply String.eqb_eq in E. subst r. exists false, w.
      repeat split; auto; try discriminate.
      intros (r & Er & Hr & _). congruence.
    + apply String.eqb_neq in E.
      unfold bind. rewrite db_query_run. cbn [db].
      set (u := normalize_url_lossy C _).
      eexists _, _. split; [reflexivity |]. cbn [db time].
      split; [reflexivity |]. split; [reflexivity |]. split.
      * pose proof (q_ignore_redirect_some (db w) u) as Hq.
        destruct (q_ignore_redirect (db w) u) as [x |].
        -- split; [| reflexivity]. intros _. exists r.
           repeat split; auto. apply Hq. now exists x.
        -- split; [discriminate |]. intros (r' & Er & _ & Hin).
           inversion Er; subst r'. apply Hq in Hin.
           destruct Hin as [x Hx]. discriminate.
      * intros [H | H]; [discriminate | congruence].
  - exists false, w. repeat split; auto; try discriminate.
    intros (r & Er & _). discriminate.
Qed.

(** ** The domain test *)

Lemma domain_matches_exists (C : collaborators) (m : medium)
    (urls : list string) :
  _url_domain_matches_medium C m urls = true
  <-> exists u, In u urls
        /\ get_url_distinctive_domain C u
           = get_url_distinctive_domain C (m_url m).
Proof.
  unfold _url_domain_matches_medium.
  induction urls as [| h t IH]; simpl.
  - split; [discriminate | intros (u & [] & _)].
  - destruct (String.eqb _ (get_url_distinctive_domain C h)) eqn:E; simpl.
    + apply String.eqb_eq in E. split; [| reflexivity].
      intros _. exists h. auto.
    + apply String.eqb_neq in E. rewrite IH.
      split; intros (u & Hu & Eu).
      * exists u. auto.
      * destruct Hu as [-> | Hu]; [congruence | exists u; auto].
Qed.

(** X2: [_url_domain_matches_medium] is true exactly when some story url has
    the distinctive domain of the medium's url; on no urls it is false. *)
Theorem url_domain_matches_iff (C : collaborators) (m : medium)
    (urls : list string) :
  (_url_domain_matches_medium C m urls = true
   <-> exists u, In u urls
         /\ get_url_distinctive_domain C u
            = get_url_distinctive_domain C (m_url m))
  /\ _url_domain_matches_medium C m [] = false.
Proof. split; [apply domain_matches_exists | reflexivity]. Qed.

(** ** The ranking criteria *)

(** The story returned belongs to a source whose key is not above the key of
    any candidate's source. *)
Lemma preferred_source_least (C : collaborators) (stories : list story)
    (w : world) :
  stories <> [] ->
  store_consistent (db w) stories ->
  exists s w' m,
    get_preferred_story C stories w = (Ok s, w')
    /\ In s stories
    /\ In m (t_media (db w)) /\ m_media_id m = media_id s
    /\ forall m', In m' (t_media (db w)) ->
         In (m_media_id m') (map media_id stories) ->
         tuple_leb (itemgetter (ranked C (db w) stories m))
                   (itemgetter (ranked C (db w) stories m')) = true.
Proof.
  intros Hne Hc.
  destruct (get_preferred_story_spec C stories w Hne Hc)
    as (s & w' & top & Hrun & Htop & Hin & _).
  apply stories_of_source_In in Hin. destruct Hin as [Hin Hmid].
  destruct (top_ranked_least C _ _ _ Htop) as [(m & -> & Hm & Hid) Hleast].
  exists s, w', m. simpl in Hmid. repeat split; auto.
Qed.

(** X4: when the sources of the candidates tie on being a duplication
    target and one of them has no [dup_media_id] of its own, the story
    returned belongs to a source without a [dup_media_id]. *)
Theorem preferred_source_is_not_dup_source (C : collaborators)
    (stories : list story) (w : world) (m0 : medium) :
  store_consistent (db w) stories ->
  (forall m m', In m (t_media (db w)) -> In m' (t_media (db w)) ->
     In (m_media_id m) (map media_id stories) ->
     In (m_media_id m') (map media_id stories) ->
     sql_is_dup_target (db w) m = sql_is_dup_target (db w) m') ->
  In m0 (t_media (db w)) ->
  In (m_media_id m0) (map media_id stories) ->
  truthy (dup_media_id m0) = false ->
  exists s w' m,
    get_preferred_story C stories w = (Ok s, w')
    /\ In s stories
    /\ In m (t_media (db w)) /\ m_media_id m = media_id s
    /\ truthy (dup_media_id m) = false.
Proof.
  intros Hc Htie Hm0 Hid0 D0.
  assert (Hne : stories <> []) by (intros ->; destruct Hid0).
  destruct (preferred_source_least C stories w Hne Hc)
    as (s & w' & m & Hrun & Hin & Hm & Hid & Hleast).
  exists s, w', m. repeat split; auto.
  assert (Hidm : In (m_media_id m) (map media_id stories))
    by (rewrite Hid; now apply in_map).
  specialize (Hleast m0 Hm0 Hid0).
  unfold ranked, rank_medium, itemgetter in Hleast. simpl in Hleast.
  rewrite (Htie m m0 Hm Hm0 Hidm Hid0), D0 in Hleast.
  destruct (truthy (dup_media_id m)); [| reflexivity].
  exfalso. unfold tuple_leb in Hleast. rewrite Z.ltb_irrefl in Hleast.
  simpl in Hleast. discriminate.
Qed.

(** X5: when the sources of the candidates tie on all three flags, the
    story returned belongs to the source with the lowest [media_id]. *)
Theorem preferred_source_has_lowest_id (C : collaborators)
    (stories : list story) (w : world) :
  stories <> [] ->
  store_consistent (db w) stories ->
  (forall m m', In m (t_media (db w)) -> In m' (t_media (db w)) ->
     In (m_media_id m) (map media_id stories) ->
     In (m_media_id m') (map media_id stories) ->
     sql_is_dup_target (db w) m = sql_is_dup_target (db w) m'
     /\ truthy (dup_media_id m) = truthy (dup_media_id m')
     /\ _url_domain_matches_medium C m (map url stories)
        = _url_domain_matches_medium C m' (map url stories)) ->
  exists s w',
    get_preferred_story C stories w = (Ok s, w')
    /\ In s stories
    /\ forall c, In c stories -> media_id s <= media_id c.
Proof.
  intros Hne Hc Htie.
  destruct (preferred_source_least C stories w Hne Hc)
    as (s & w' & m & Hrun & Hin & Hm & Hid & Hleast).
  exists s, w'. repeat split; auto. intros c Hc'.
  assert (Hidm : In (m_media_id m) (map media_id stories))
    by (rewrite Hid; now apply in_map).
  pose proof (sc_media_ref _ _ Hc c Hc') as Href.
  apply in_map_iff in Href. destruct Href as (m' & Em' & Hm').
  assert (Hidm' : In (m_media_id m') (map media_id stories))
    by (rewrite Em'; now apply in_map).
  specialize (Hleast m' Hm' Hidm').
  destruct (Htie m m' Hm Hm' Hidm Hidm') as (T & D & U).
  unfold ranked, rank_medium, itemgetter in Hleast. simpl in Hleast.
  rewrite T, D, U in Hleast. unfold tuple_leb in Hleast.
  rewrite !Z.ltb_irrefl in Hleast. apply Z.leb_le in Hleast. lia.
Qed.

(** ** Independence of the candidate order *)

Lemma mem_Z_ext (l l' : list Z) (x : Z) :
  (forall y, In y l <-> In y l') -> mem_Z x l = mem_Z x l'.
Proof.
  intros H. destruct (mem_Z x l) eqn:E1, (mem_Z x l') eqn:E2; auto.
  - apply mem_Z_In, H, mem_Z_In in E1. congruence.
  - apply mem_Z_In, H, mem_Z_In in E2. congruence.
Qed.

Lemma In_map_ext {A B : Type} (f : A -> B) (l l' : list A) :
  (forall x, In x l <-> In x l') ->
  forall y, In y (map f l) <-> In y (map f l').
Proof.
  intros H y. rewrite !in_map_iff.
  split; intros (x & E & Hx); exists x; split; auto; now apply H.
Qed.

Section SortedExt.
Context {A K R : Type} (leb : K -> K -> bool) (key : A -> K) (g : A -> R).

Let same (a b : A) : Prop := key a = key b /\ g a = g b.

Lemma insert_by_same (x x' : A) (l l' : list A) :
  same x x' -> Forall2 same l l' ->
  Forall2 same (insert_by leb key x l) (insert_by leb key x' l').
Proof.
  intros Hx Hl. induction Hl as [| a b l l' Hab Hl IH]; simpl.
  - constructor; [exact Hx | constructor].
  - destruct Hx as [Kx Gx]. destruct Hab as [Kab Gab].
    rewrite <- Kx, <- Kab. destruct (leb (key x) (key a)).
    + constructor; [split; auto |]. constructor; [split; auto | exact Hl].
    + constructor; [split; auto |]. apply IH.
Qed.

Lemma sorted_same (l l' : list A) :
  Forall2 same l l' ->
  Forall2 same (sorted leb key l) (sorted leb key l').
Proof.
  intros H. induction H as [| a b l l' Hab Hl IH]; simpl.
  - constructor.
  - now apply insert_by_same.
Qed.

Lemma sorted_map_ext {X : Type} (f f' : X -> A) (l : list X) :
  (forall x, key (f x) = key (f' x)) -> (forall x, g (f x) = g (f' x)) ->
  map g (sorted leb key (map f l)) = map g (sorted leb key (map f' l)).
Proof.
  intros Hk Hg.
  assert (H : Forall2 same (map f l) (map f' l)).
  { induction l as [| x t IH]; simpl; constructor; [split; auto | exact IH]. }
  apply sorted_same in H.
  induction H as [| a b s s' [_ Hab] _ IH]; simpl; [reflexivity |].
  now rewrite Hab, IH.
Qed.

End SortedExt.

(** The sources come out of the ranking in the same order for two candidate
    lists with the same members. *)
Lemma ranked_sources_ext (C : collaborators) (d : database)
    (stories stories' : list story) :
  (forall s, In s stories <-> In s stories') ->
  map rm_row (ranked_sources C d stories)
  = map rm_row (ranked_sources C d stories').
Proof.
  intros H. unfold ranked_sources.
  assert (E : q_media d (map media_id stories) = q_media d (map media_id stories')).
  { unfold q_media. f_equal. apply filter_ext. intros m.
    apply mem_Z_ext. now apply In_map_ext. }
  rewrite E. apply sorted_map_ext; [| reflexivity].
  intros [m b]. unfold itemgetter, rank_medium. simpl.
  assert (U : _url_domain_matches_medium C m (map url stories)
              = _url_domain_matches_medium C m (map url stories')).
  { destruct (_url_domain_matches_medium C m (map url stories)) eqn:E1,
             (_url_domain_matches_medium C m (map url stories')) eqn:E2; auto.
    - apply domain_matches_exists in E1. destruct E1 as (u & Hu & Eu).
      assert (_url_domain_matches_medium C m (map url stories') = true).
      { apply domain_matches_exists. exists u. split; [| exact Eu].
        now apply (In_map_ext url stories stories' H). }
      congruence.
    - apply domain_matches_exists in E2. destruct E2 as (u & Hu & Eu).
      assert (_url_domain_matches_medium C m (map url stories) = true).
      { apply domain_matches_exists. exists u. split; [| exact Eu].
        now apply (In_map_ext url stories stories' H). }
      congruence. }
  now rewrite U.
Qed.

(** X6: the source of the story returned does not depend on the order of
    the candidates: two lists with the same members give stories of the same
    source. *)
Theorem preferred_source_order_independent (C : collaborators)
    (stories stories' : list story) (w : world) :
  stories <> [] ->
  (forall s, In s stories <-> In s stories') ->
  store_consistent (db w) stories ->
  exists s s' w1 w2,
    get_preferred_story C stories w = (Ok s, w1)
    /\ get_preferred_story C stories' w = (Ok s', w2)
    /\ media_id s = media_id s'.
Proof.
  intros Hne Hmem Hc.
  assert (Hne' : stories' <> []).
  { destruct stories as [| a t]; [congruence |]. intros E.
    assert (In a stories') by (apply Hmem; now left).
    rewrite E in H. destruct H. }
  assert (Hc' : store_consistent (db w) stories').
  { destruct Hc as [H1 H2 H3 H4].
    constructor; auto; intros s Hs; apply Hmem in Hs; auto. }
  destruct (get_preferred_story_spec C stories w Hne Hc)
    as (s & w1 & top & Hrun & Htop & Hin & _).
  destruct (get_preferred_story_spec C stories' w Hne' Hc')
    as (s' & w2 & top' & Hrun' & Htop' & Hin' & _).
  exists s, s', w1, w2. repeat split; auto.
  apply stories_of_source_In in Hin, Hin'.
  destruct Hin as [_ ->], Hin' as [_ ->].
  pose proof (ranked_sources_ext C (db w) stories stories' Hmem) as E.
  unfold top_ranked_source in Htop, Htop'.
  destruct (ranked_sources C (db w) stories) as [| x t]; [discriminate |].
  destruct (ranked_sources C (db w) stories') as [| x' t']; [discriminate |].
  simpl in *. inversion Htop; inversion Htop'; subst. congruence.
Qed.

(** ** Candidates without a source *)

(** X7: when there are two or more candidates and none of their
    [media_id]s has a row in [media], the media query yields nothing and
    [sorted_media[0]] raises [IndexError]; only the media query was made. *)
Theorem get_preferred_story_no_media_raises (C : collaborators)
    (stories : list story) (w : world) :
  (2 <= List.length stories)%nat ->
  (forall s, In s stories ->
     ~ In (media_id s) (map m_media_id (t_media (db w)))) ->
  get_preferred_story C stories w
  = (Raise IndexError,
     mkWorld (db w) (time w) (QMedia (map media_id stories) :: trace w)).
Proof.
  intros Hlen Hno.
  destruct stories as [| a [| b rest]]; simpl in Hlen; try lia.
  rewrite get_preferred_story_run.
  destruct (top_ranked_source C (db w) (a :: b :: rest)) as [top |] eqn:E;
    [| reflexivity].
  exfalso. destruct (top_ranked_least C _ _ _ E) as [(m & _ & Hm & Hid) _].
  apply in_map_iff in Hid. destruct Hid as (s & Es & Hs).
  apply (Hno s Hs). rewrite Es. now apply in_map.
Qed.

(** ** The story matcher *)

Lemma mem_str_In (x : string) (l : list string) : mem_str x l = true <-> In x l.
Proof.
  induction l as [| h t IH]; simpl; [split; [discriminate | tauto] |].
  rewrite orb_true_iff, IH, String.eqb_eq. intuition.
Qed.

Lemma story_eqb_eq (a b : story) : story_eqb a b = true -> a = b.
Proof. unfold story_eqb. now destruct (story_eq_dec a b). Qed.

(** What it means for a row to be in the result of the variant-set query. *)
Lemma q_story_match_In (d : database) (urls : list string) (s : story) :
  In s (q_story_match d urls)
  <-> In s (t_stories d)
      /\ (exists m, In m (t_media d) /\ m_media_id m = media_id s
                    /\ foreign_rss_links m = false)
      /\ (In (url s) urls \/ In (guid s) urls
          \/ exists csu, In csu (t_topic_seed_urls d)
               /\ csu_stories_id csu = Some (stories_id s)
               /\ In (csu_url csu) urls).
Proof.
  assert (J : joins_plain_medium d s = true
              <-> exists m, In m (t_media d) /\ m_media_id m = media_id s
                            /\ foreign_rss_links m = false).
  { unfold joins_plain_medium. rewrite existsb_exists.
    split; intros (m & Hm & E); exists m.
    - apply andb_true_iff in E. destruct E as [E1 E2].
      apply Z.eqb_eq in E1. apply negb_true_iff in E2. auto.
    - destruct E as [E1 E2]. split; [exact Hm |].
      rewrite E1, E2, Z.eqb_refl. reflexivity. }
  assert (S : joins_seed_url d urls s = true
              <-> exists csu, In csu (t_topic_seed_urls d)
                    /\ csu_stories_id csu = Some (stories_id s)
                    /\ In (csu_url csu) urls).
  { unfold joins_seed_url. rewrite existsb_exists.
    split; intros (c & Hc & E); exists c.
    - apply andb_true_iff in E. destruct E as [E1 E2].
      apply mem_str_In in E2.
      destruct (csu_stories_id c) as [x |]; simpl in E1; [| discriminate].
      apply Z.eqb_eq in E1. subst x. auto.
    - destruct E as [E1 E2]. split; [exact Hc |].
      rewrite E1. simpl. rewrite Z.eqb_refl. simpl. now apply mem_str_In. }
  unfold q_story_match.
  rewrite (In_dedup _ _ _ story_eqb_eq), in_app_iff.
  rewrite !(In_dedup _ _ _ story_eqb_eq), !filter_In.
  rewrite !andb_true_iff, orb_true_iff, !mem_str_In, J, S. tauto.
Qed.

(** X8: when the variant-set query finds at least one story in a store with
    unique story and media ids, [get_story_match] returns a story of the
    store that matches: its url or guid, or a seed url linked to it, is in
    the variant set, and its source is not a [foreign_rss_links] source. *)
Theorem get_story_match_returns_match (C : collaborators) (url0 : string)
    (redirect_url : option string) (w w1 : world) (ignored : bool) :
  NoDup (map stories_id (t_stories (db w))) ->
  NoDup (map m_media_id (t_media (db w))) ->
  ignore_redirect C url0 redirect_url w = (Ok ignored, w1) ->
  let u := slice_to _MAX_URL_LENGTH url0 in
  let ru := effective_redirect ignored u redirect_url in
  let urls := dedup String.eqb
                [u; ru; normalize_url_lossy C u; normalize_url_lossy C ru] in
  q_story_match (db w) urls <> [] ->
  exists s w',
    get_story_match C url0 redirect_url w = (Ok s, w')
    /\ In s (t_stories (db w))
    /\ (exists m, In m (t_media (db w)) /\ m_media_id m = media_id s
                  /\ foreign_rss_links m = false)
    /\ (In (url s) urls \/ In (guid s) urls
        \/ exists csu, In csu (t_topic_seed_urls (db w))
             /\ csu_stories_id csu = Some (stories_id s)
             /\ In (csu_url csu) urls).
Proof.
  intros Hs Hm Hi u ru urls Hne.
  assert (Hdb : db w1 = db w).
  { destruct (ignore_redirect_total C url0 redirect_url w) as (b & w2 & E & D & _).
    rewrite Hi in E. inversion E; subst. exact D. }
  rewrite (get_story_match_run C url0 redirect_url w w1 ignored Hi).
  fold u. fold ru. fold urls. rewrite Hdb.
  set (w2 := mkWorld _ _ _).
  destruct (get_preferred_story_spec C (q_story_match (db w) urls) w2 Hne)
    as (s & w' & top & Hrun & _ & Hin & _).
  { apply q_story_match_consistent; assumption. }
  exists s, w'. split; [exact Hrun |].
  apply stories_of_source_In in Hin. destruct Hin as [Hin _].
  apply q_story_match_In in Hin. tauto.
Qed.

Lemma read_only_ignore_redirect (C : collaborators) (url : string)
    (redirect_url : option string) :
  read_only (ignore_redirect C url redirect_url).
Proof.
  unfold ignore_redirect. destruct redirect_url as [r |];
    [| apply read_only_ret].
  destruct (String.eqb url r); [apply read_only_ret |].
  apply read_only_bind; [apply read_only_db_query | intros x].
  apply read_only_ret.
Qed.

(** X9: [get_story_match] only reads: whatever it returns or raises, the
    tables and the clock are as before, and the record of calls has only
    grown. *)
Theorem get_story_match_only_reads (C : collaborators) (url : string)
    (redirect_url : option string) (w w' : world) (r : result story) :
  get_story_match C url redirect_url w = (r, w') ->
  db w' = db w /\ time w' = time w
  /\ exists evs, trace w' = evs ++ trace w.
Proof.
  revert w r w'. change (read_only (get_story_match C url redirect_url)).
  unfold get_story_match.
  apply read_only_bind; [apply read_only_ignore_redirect | intros ign].
  apply read_only_bind; [apply read_only_db_query | intros stories].
  apply read_only_bind; [apply read_only_preferred | intros s].
  apply read_only_ret.
Qed.

Lemma NoDup_dedup {A : Type} (eqb : A -> A -> bool) (l : list A) :
  (forall a, eqb a a = true) -> NoDup (dedup eqb l).
Proof.
  intros Hrefl. induction l as [| h t IH]; simpl; constructor.
  - intros H. apply filter_In in H. destruct H as [_ H].
    rewrite Hrefl in H. discriminate.
  - now apply NoDup_filter.
Qed.

Lemma length_dedup {A : Type} (eqb : A -> A -> bool) (l : list A) :
  (List.length (dedup eqb l) <= List.length l)%nat.
Proof.
  induction l as [| h t IH]; simpl; [lia |].
  pose proof (filter_length_le (fun y => negb (eqb h y)) (dedup eqb t)). lia.
Qed.

(** X10: the variant set [get_story_match] queries with has no duplicates
    and at most four members; the truncated url and its normalized form are
    always in it, and so are the truncated redirect url and its normalized
    form when there is a redirect that is not ignored. *)
Theorem get_story_match_variant_set_small (C : collaborators) (url : string)
    (redirect_url : option string) (w w1 : world) (ignored : bool) :
  ignore_redirect C url redirect_url w = (Ok ignored, w1) ->
  exists urls,
    get_story_match C url redirect_url w
    = get_preferred_story C (q_story_match (db w1) urls)
        (mkWorld (db w1) (time w1) (QStoryMatch urls :: trace w1))
    /\ NoDup urls /\ (List.length urls <= 4)%nat
    /\ In (slice_to _MAX_URL_LENGTH url) urls
    /\ In (normalize_url_lossy C (slice_to _MAX_URL_LENGTH url)) urls
    /\ (ignored = false -> forall r, redirect_url = Some r ->
        In (slice_to _MAX_URL_LENGTH r) urls
        /\ In (normalize_url_lossy C (slice_to _MAX_URL_LENGTH r)) urls).
Proof.
  intros Hi. eexists. split;
    [exact (get_story_match_run C url redirect_url w w1 ignored Hi) |].
  set (u := slice_to _MAX_URL_LENGTH url). clearbody u.
  assert (Hin : forall x l, In x l -> In x (dedup String.eqb l)).
  { intros x l H. apply In_dedup; [| exact H].
    intros a b. apply String.eqb_eq. }
  split; [apply NoDup_dedup, String.eqb_refl |].
  split; [apply (length_dedup String.eqb
                   [u; effective_redirect ignored u redirect_url;
                    normalize_url_lossy C u;
                    normalize_url_lossy C (effective_redirect ignored u redirect_url)]) |].
  split; [apply Hin; simpl; auto |].
  split; [apply Hin; simpl; auto |].
  intros -> r ->. unfold effective_redirect. cbn [negb].
  split; apply Hin; simpl; auto.
Qed.

(** X11: without a redirect url only the first [_MAX_URL_LENGTH] characters
    of the url count: two urls with the same truncation are matched alike. *)
Theorem get_story_match_truncates (C : collaborators) (url url' : string)
    (w : world) :
  slice_to _MAX_URL_LENGTH url = slice_to _MAX_URL_LENGTH url' ->
  get_story_match C url None w = get_story_match C url' None w.
Proof.
  intros E.
  rewrite (get_story_match_run C url None w w false eq_refl).
  rewrite (get_story_match_run C url' None w w false eq_refl).
  now rewrite E.
Qed.

(** ** The spider feed *)

Lemma filter_app_last {A : Type} (p : A -> bool) (l : list A) (x : A) :
  filter p l = [] -> p x = true -> filter p (l ++ [x]) = [x].
Proof. intros H Hx. rewrite filter_app, H. simpl. now rewrite Hx. Qed.

(** The rows of [feeds] the spider-feed query selects for a medium. *)
Lemma get_spider_feed_run (m : medium) (w : world) :
  let p := fun f : feed => (f_media_id f =? m_media_id m)
                           && String.eqb (f_url f) (m_url m)
                           && String.eqb (f_name f) _SPIDER_FEED_NAME in
  let q := QSpiderFeed (m_media_id m) (m_url m) _SPIDER_FEED_NAME in
  get_spider_feed m w
  = match filter p (t_feeds (db w)) with
    | f :: _ => (Ok f, mkWorld (db w) (time w) (q :: trace w))
    | [] =>
        let row := mkFeed (next_id (map feeds_id (t_feeds (db w))))
                          (m_media_id m) (m_url m) _SPIDER_FEED_NAME
                          "inactive" in
        (Ok row,
         mkWorld (set_feeds (db w) (t_feeds (db w) ++ [row])) (time w)
                 (CreateFeed (m_media_id m) (m_url m) _SPIDER_FEED_NAME
                  :: q :: trace w))
    end.
Proof.
  cbv zeta. unfold get_spider_feed. unfold bind at 1. rewrite db_query_run.
  unfold q_spider_feed, hash. cbn [db fst snd].
  destruct (filter _ (t_feeds (db w))) as [| f rest]; reflexivity.
Qed.

(** X12: [get_spider_feed] always returns a feed of the given medium with
    the medium's url and the name ['Spider Feed'], which is in [feeds]
    afterwards; it adds at most that one row (an inactive feed), and a second
    call returns the same feed and changes no table. *)
Theorem get_spider_feed_idempotent (m : medium) (w : world) :
  exists f w1,
    get_spider_feed m w = (Ok f, w1)
    /\ f_media_id f = m_media_id m /\ f_url f = m_url m
    /\ f_name f = _SPIDER_FEED_NAME
    /\ In f (t_feeds (db w1))
    /\ (db w1 = db w
        \/ (t_feeds (db w1) = t_feeds (db w) ++ [f]
            /\ feed_status f = "inactive"%string))
    /\ exists w2, get_spider_feed m w1 = (Ok f, w2) /\ db w2 = db w1.
Proof.
  rewrite get_spider_feed_run. cbv zeta.
  set (p := fun f : feed => (f_media_id f =? m_media_id m)
                            && String.eqb (f_url f) (m_url m)
                            && String.eqb (f_name f) _SPIDER_FEED_NAME).
  destruct (filter p (t_feeds (db w))) as [| f rest] eqn:F.
  - set (row := mkFeed _ _ _ _ _).
    assert (Hp : p row = true).
    { unfold p, row. cbn [f_media_id f_url f_name].
      now rewrite Z.eqb_refl, !String.eqb_refl. }
    eexists row, _. split; [reflexivity |]. cbn [db].
    split; [reflexivity |]. split; [reflexivity |]. split; [reflexivity |].
    split; [unfold set_feeds; cbn [t_feeds]; apply in_or_app; right; now left |].
    split; [right; split; reflexivity |].
    rewrite get_spider_feed_run. cbv zeta. cbn [db]. fold p.
    unfold set_feeds at 1. cbn [t_feeds].
    rewrite (filter_app_last p _ row F Hp).
    eexists. split; reflexivity.
  - assert (Hf : In f (filter p (t_feeds (db w)))) by (rewrite F; now left).
    apply filter_In in Hf. destruct Hf as [Hin Hp]. unfold p in Hp.
    apply andb_true_iff in Hp. destruct Hp as [Hp E3].
    apply andb_true_iff in Hp. destruct Hp as [E1 E2].
    apply Z.eqb_eq in E1. apply String.eqb_eq in E2, E3.
    eexists f, _. split; [reflexivity |]. cbn [db].
    split; [exact E1 |]. split; [exact E2 |]. split; [exact E3 |].
    split; [exact Hin |]. split; [now left |].
    rewrite get_spider_feed_run. cbv zeta. cbn [db]. fold p. rewrite F.
    eexists. split; reflexivity.
Qed.

(** ** The names of the date-guess tags *)

Lemma word_run_word (s : string) (c : ascii) :
  In c (list_ascii_of_string (word_run s)) -> is_word_char c = true.
Proof.
  induction s as [| a s IH]; simpl; [tauto |].
  destruct (is_word_char a) eqn:E; simpl; [| tauto].
  intros [<- | H]; auto.
Qed.

Lemma re_search_tag_word (s name : string) (c : ascii) :
  re_search_tag s = Some name ->
  In c (list_ascii_of_string name) -> is_word_char c = true.
Proof.
  induction s as [| a s IH]; simpl; [discriminate |].
  destruct (Ascii.eqb a "<"); [| exact IH].
  destruct (word_run s) as [| b r] eqn:W; [exact IH |].
  intros E. inversion E; subst name. rewrite <- W. apply word_run_word.
Qed.

(** X13: whatever the date guesser reports, the tag set is
    [date_guess_method] or [date_invalid], the latter exactly when no date
    was found and there is no fallback date, and the tag consists of word
    characters only, also when its name comes out of the guess method. *)
Theorem date_guess_tag_names_safe (g : GuessDateResult) (fb : option pydate) :
  let names := date_guess_tag_names g fb in
  (fst names = "date_guess_method"%string \/ fst names = "date_invalid"%string)
  /\ (fst names = "date_invalid"%string <-> found g = false /\ fb = None)
  /\ forall c, In c (list_ascii_of_string (snd names)) -> is_word_char c = true.
Proof.
  cbv zeta. unfold date_guess_tag_names.
  assert (L : forall c (l : list ascii),
            forallb is_word_char l = true -> In c l -> is_word_char c = true).
  { intros c l H Hc. rewrite forallb_forall in H. now apply H. }
  destruct (found g).
  - destruct (startswith _ "Extracted from url").
    + cbn [fst snd]. split; [now left |]. split.
      * split; [discriminate | intros [H _]; discriminate].
      * intros c. now apply L.
    + destruct (startswith _ "Extracted from tag").
      * cbn [fst snd]. split; [now left |]. split.
        -- split; [discriminate | intros [H _]; discriminate].
        -- intros c Hc.
           change (list_ascii_of_string ("guess_by_tag_" ++ ?x))
             with (list_ascii_of_string "guess_by_tag_"
                   ++ list_ascii_of_string x)%list in Hc.
           apply in_app_or in Hc. destruct Hc as [Hc | Hc];
             [revert Hc; now apply L |].
           destruct (re_search_tag (guess_method g)) as [name |] eqn:R.
           ++ exact (re_search_tag_word _ _ _ R Hc).
           ++ revert Hc. now apply L.
      * cbn [fst snd]. split; [now left |]. split.
        -- split; [discriminate | intros [H _]; discriminate].
        -- intros c. now apply L.
  - destruct fb as [d |]; cbn [fst snd].
    + split; [now left |]. split.
      * split; [discriminate | intros [_ H]; discriminate].
      * intros c. now apply L.
    + split; [now right |]. split; [tauto |].
      intros c. now apply L.
Qed.

(** ** The story the synthesizer returns *)

Lemma slice_to_short (n : nat) (s : string) :
  (String.length s <= n)%nat -> slice_to n s = s.
Proof.
  revert s. induction n as [| n IH]; intros [| c s]; simpl; intros H;
    try reflexivity; try lia.
  f_equal. apply IH. lia.
Qed.

Lemma strip_nul_clean (s : string) : no_nul s -> strip_nul s = s.
Proof.
  unfold no_nul. induction s as [| c s IH]; simpl; [reflexivity |].
  intros H. destruct (Ascii.eqb c zero) eqn:E.
  - apply Ascii.eqb_eq in E. exfalso. apply H. left. now symmetry.
  - f_equal. apply IH. intros Hin. apply H. now right.
Qed.

Lemma creates_story_row (sd : story_dict) :
  creates (fun _ => True)
    (fun s => url s = sd_url sd /\ guid s = sd_guid sd /\ title s = sd_title sd
              /\ description s = sd_description sd
              /\ media_id s = sd_media_id sd)
    (db_create_stories sd).
Proof.
  intros w r w' E. run_writes_in E. inversion E; subst; cbn [trace]. split.
  - eexists [_]. split; [reflexivity | trivial].
  - intros a Ea. inversion Ea; subst. simpl. repeat split.
Qed.

(** X15: the story [add_new_story] returns has the truncated url, without
    null characters, as both its url and its guid, the extracted title
    without null characters, an empty description and the [media_id] of the
    guessed medium; a url without null characters that is within the length
    limit is stored as it is. *)
Theorem add_new_story_fields (C : collaborators) (url0 content : string)
    (fallback_date : option pydate) (w w' : world) (m : medium)
    (d1 : database) (s : story) :
  let u := slice_to _MAX_URL_LENGTH url0 in
  guess_medium C u (db w) = Ok (m, d1) ->
  add_new_story C url0 content fallback_date w = (Ok s, w') ->
  url s = strip_nul u /\ guid s = strip_nul u
  /\ title s = strip_nul (html_title C content u _MAX_TITLE_LENGTH)
  /\ description s = ""%string
  /\ media_id s = m_media_id m
  /\ (no_nul url0 -> (String.length url0 <= _MAX_URL_LENGTH)%nat ->
      url s = url0 /\ guid s = url0).
Proof.
  intros u Hgm Hrun.
  assert (Hlim : no_nul url0 -> (String.length url0 <= _MAX_URL_LENGTH)%nat ->
                 strip_nul u = url0).
  { intros Hn Hl. unfold u. rewrite (slice_to_short _ _ Hl).
    now apply strip_nul_clean. }
  unfold add_new_story in Hrun. fold u in Hrun. clearbody u.
  unfold bind at 1 in Hrun. unfold call at 1 in Hrun. rewrite Hgm in Hrun.
  set (Q := fun s : story =>
              url s = strip_nul u /\ guid s = strip_nul u
              /\ title s = strip_nul (html_title C content u _MAX_TITLE_LENGTH)
              /\ description s = ""%string /\ media_id s = m_media_id m).
  match type of Hrun with
  | ?k ?w1 = _ => assert (Hk : creates (fun _ => True) Q k)
  end.
  { eapply creates_bind; [apply creates_spider_feed | intros f _].
    eapply creates_bind; [apply creates_call | intros sp _].
    eapply creates_bind; [apply creates_silent; reflexivity | intros now _].
    set (sd0 := set_sd_publish_date _ _).
    eapply creates_bind with
      (Q1 := fun sd => sd_url sd = strip_nul u /\ sd_guid sd = strip_nul u
                       /\ sd_title sd
                          = strip_nul (html_title C content u _MAX_TITLE_LENGTH)
                       /\ sd_description sd = ""%string
                       /\ sd_media_id sd = m_media_id m).
    { destruct (sd_publish_date sd0).
      - apply creates_ret. repeat split.
      - eapply creates_bind; [apply creates_silent; reflexivity | intros t _].
        apply creates_ret. repeat split. }
    intros sd (E1 & E2 & E3 & E4 & E5).
    eapply creates_bind; [apply (creates_story_row sd) | intros s0 Hs0].
    eapply creates_bind; [apply creates_stories_tags_map | intros _ _].
    eapply creates_bind; [apply creates_assign | intros _ _].
    eapply creates_bind; [apply creates_feeds_stories_map | intros _ _].
    eapply creates_bind; [apply creates_download | intros dl _].
    eapply creates_bind; [apply creates_call | intros dl' _].
    apply creates_ret. unfold Q.
    destruct Hs0 as (F1 & F2 & F3 & F4 & F5).
    repeat split; congruence. }
  destruct (Hk _ _ _ Hrun) as [_ HQ].
  destruct (HQ s eq_refl) as (F1 & F2 & F3 & F4 & F5).
  repeat split; auto.
  - rewrite F1. now apply Hlim.
  - rewrite F2. now apply Hlim.
Qed.

(** ** How often the synthesizer writes *)

Lemma count_kind_app (k : event_kind) (a b : list event) :
  count_kind k (a ++ b) = (count_kind k a + count_kind k b)%nat.
Proof. unfold count_kind. now rewrite filter_app, length_app. Qed.

Section Emits.
Variable k : event_kind.

Lemma emits_ret {A : Type} (a : A) : emits k 0 (ret a).
Proof.
  intros w r w' E. inversion E; subst. exists []. repeat split; auto.
Qed.

Lemma emits_silent {A : Type} (m : M A) :
  (forall w, trace (snd (m w)) = trace w) -> emits k 0 m.
Proof.
  intros H w r w' E. exists []. specialize (H w). rewrite E in H.
  simpl in H. repeat split; auto.
Qed.

Lemma emits_call {A : Type} (c : collaborator A) : emits k 0 (call c).
Proof.
  apply emits_silent. intros w. unfold call.
  destruct (c (db w)) as [[a d] | e]; reflexivity.
Qed.

Lemma emits_bind {A B : Type} (n1 n2 : nat) (m : M A) (f : A -> M B) :
  emits k n1 m -> (forall a, emits k n2 (f a)) ->
  emits k (n1 + n2) (bind m f).
Proof.
  intros Hm Hf w r w' E. unfold bind in E.
  destruct (m w) as [[a | e] w1] eqn:E1.
  - destruct (Hm _ _ _ E1) as (evs1 & T1 & L1 & X1).
    destruct (Hf a _ _ _ E) as (evs2 & T2 & L2 & X2).
    exists (evs2 ++ evs1). rewrite T2, T1, app_assoc, count_kind_app.
    specialize (X1 a eq_refl). repeat split; [lia |].
    intros b Eb. specialize (X2 b Eb). lia.
  - inversion E; subst. destruct (Hm _ _ _ E1) as (evs1 & T1 & L1 & X1).
    exists evs1. repeat split; [exact T1 | lia | discriminate].
Qed.

Lemma emits_eq {A : Type} (n n' : nat) (m : M A) :
  emits k n m -> n = n' -> emits k n' m.
Proof. now intros H <-. Qed.

(** Settles [emits] for a write that records one event. *)
Ltac emits_one :=
  let w := fresh "w" in
  let r := fresh "r" in
  let w' := fresh "w'" in
  let E := fresh "E" in
  intros w r w' E; run_writes_in E; inversion E; subst; cbn [trace];
  eexists [_]; split; [reflexivity |];
  unfold count_kind, one_if; cbn [filter kind_of];
  match goal with
  | |- context [kind_eqb ?a ?b] => destruct (kind_eqb a b)
  end; simpl; split; auto.

Lemma emits_story (sd : story_dict) :
  emits k (one_if k KCreateStory) (db_create_stories sd).
Proof. emits_one. Qed.

Lemma emits_stories_tags_map (sid tid : Z) :
  emits k (one_if k KCreateStoriesTagsMap) (db_create_stories_tags_map sid tid).
Proof. emits_one. Qed.

Lemma emits_feeds_stories_map (sid fid : Z) :
  emits k (one_if k KCreateFeedsStoriesMap) (db_create_feeds_stories_map sid fid).
Proof. emits_one. Qed.

Lemma emits_download (C : collaborators) (s : story) (f : feed) :
  emits k (one_if k KCreateDownload) (create_download_for_new_story C s f).
Proof. emits_one. Qed.

Lemma emits_tag_sets (name : string) :
  emits k (one_if k KFindOrCreate) (db_find_or_create_tag_sets name).
Proof.
  intros w r w' E. unfold db_find_or_create_tag_sets in E. run_writes_in E.
  match type of E with context [find ?f ?l] => destruct (find f l) end;
    inversion E; subst; cbn [trace];
    (eexists [_]; split; [reflexivity |];
     unfold count_kind, one_if; cbn [filter kind_of];
     destruct (kind_eqb KFindOrCreate k); simpl; split; auto).
Qed.

Lemma emits_tags (name : string) (tsid : Z) :
  emits k (one_if k KFindOrCreate) (db_find_or_create_tags name tsid).
Proof.
  intros w r w' E. unfold db_find_or_create_tags in E. run_writes_in E.
  match type of E with context [find ?f ?l] => destruct (find f l) end;
    inversion E; subst; cbn [trace];
    (eexists [_]; split; [reflexivity |];
     unfold count_kind, one_if; cbn [filter kind_of];
     destruct (kind_eqb KFindOrCreate k); simpl; split; auto).
Qed.

Lemma emits_assign (s : story) (g : GuessDateResult) (fb : option pydate) :
  emits k (one_if k KFindOrCreate
           + (one_if k KFindOrCreate + one_if k KCreateStoriesTagsMap))
        (assign_date_guess_tag s g fb).
Proof.
  unfold assign_date_guess_tag. destruct (date_guess_tag_names g fb) as [a b].
  apply emits_bind; [apply emits_tag_sets | intros ts].
  apply emits_bind; [apply emits_tags | intros t].
  apply emits_stories_tags_map.
Qed.

Lemma emits_spider_feed (m : medium) :
  kind_eqb KQuery k = false -> kind_eqb KCreateFeed k = false ->
  emits k 0 (get_spider_feed m).
Proof.
  intros Hq Hf w r w' E. rewrite get_spider_feed_run in E. cbv zeta in E.
  destruct (filter _ (t_feeds (db w))); inversion E; subst; cbn [trace].
  - eexists [_; _]. split; [reflexivity |].
    unfold count_kind. cbn [filter kind_of]. rewrite Hq, Hf. simpl. auto.
  - eexists [_]. split; [reflexivity |].
    unfold count_kind. cbn [filter kind_of]. rewrite Hq. simpl. auto.
Qed.

(** The calls of one kind that [add_new_story] makes. *)
Lemma emits_add_new_story (C : collaborators) (url0 content : string)
    (fb : option pydate) :
  kind_eqb KQuery k = false -> kind_eqb KCreateFeed k = false ->
  emits k (one_if k KCreateStory
           + (one_if k KCreateStoriesTagsMap
              + (one_if k KFindOrCreate
                 + (one_if k KFindOrCreate + one_if k KCreateStoriesTagsMap)
                 + (one_if k KCreateFeedsStoriesMap + one_if k KCreateDownload))))
        (add_new_story C url0 content fb).
Proof.
  intros Hq Hf. unfold add_new_story.
  eapply emits_eq.
  - eapply emits_bind; [apply emits_call | intros m].
    eapply emits_bind; [apply (emits_spider_feed m Hq Hf) | intros f].
    eapply emits_bind; [apply emits_call | intros sp].
    eapply emits_bind; [apply emits_silent; reflexivity | intros now].
    eapply emits_bind with (n1 := 0%nat).
    { match goal with
      | |- context [match ?x with Some _ => _ | None => _ end] => destruct x
      end.
      - apply emits_ret.
      - apply (emits_bind 0 0); [apply emits_silent; reflexivity | intros t].
        apply emits_ret. }
    intros sd.
    eapply emits_bind; [apply emits_story | intros s].
    eapply emits_bind; [apply emits_stories_tags_map | intros _].
    eapply emits_bind; [apply emits_assign | intros _].
    eapply emits_bind; [apply emits_feeds_stories_map | intros _].
    eapply emits_bind; [apply emits_download | intros dl].
    eapply emits_bind; [apply emits_call | intros dl'].
    apply emits_ret.
  - simpl. lia.
Qed.

End Emits.

(** X16: in any run [add_new_story] creates at most one story, attaches at
    most two tags, links at most one feed and creates at most one download;
    a run that returns has made exactly one, two, one and one of these
    calls. *)
Theorem add_new_story_writes (C : collaborators) (url0 content : string)
    (fb : option pydate) (w w' : world) (r : result story) :
  add_new_story C url0 content fb w = (r, w') ->
  exists evs,
    trace w' = evs ++ trace w
    /\ (count_kind KCreateStory evs <= 1)%nat
    /\ (count_kind KCreateStoriesTagsMap evs <= 2)%nat
    /\ (count_kind KCreateFeedsStoriesMap evs <= 1)%nat
    /\ (count_kind KCreateDownload evs <= 1)%nat
    /\ (forall s, r = Ok s ->
        count_kind KCreateStory evs = 1%nat
        /\ count_kind KCreateStoriesTagsMap evs = 2%nat
        /\ count_kind KCreateFeedsStoriesMap evs = 1%nat
        /\ count_kind KCreateDownload evs = 1%nat).
Proof.
  intros E.
  destruct (emits_add_new_story KCreateStory C url0 content fb
              eq_refl eq_refl _ _ _ E) as (evs & T & L1 & X1).
  destruct (emits_add_new_story KCreateStoriesTagsMap C url0 content fb
              eq_refl eq_refl _ _ _ E) as (evs2 & T2 & L2 & X2).
  destruct (emits_add_new_story KCreateFeedsStoriesMap C url0 content fb
              eq_refl eq_refl _ _ _ E) as (evs3 & T3 & L3 & X3).
  destruct (emits_add_new_story KCreateDownload C url0 content fb
              eq_refl eq_refl _ _ _ E) as (evs4 & T4 & L4 & X4).
  assert (evs2 = evs) by (apply (app_inv_tail (trace w)); congruence).
  assert (evs3 = evs) by (apply (app_inv_tail (trace w)); congruence).
  assert (evs4 = evs) by (apply (app_inv_tail (trace w)); congruence).
  subst evs2 evs3 evs4. exists evs.
  split; [exact T |]. split; [exact L1 |]. split; [exact L2 |].
  split; [exact L3 |]. split; [exact L4 |].
  intros s Es.
  rewrite (X1 s Es), (X2 s Es), (X3 s Es), (X4 s Es). repeat split.
Qed.

(** ** Adding a story and matching it again *)

Lemma next_id_above (l : list Z) (x : Z) : In x l -> x < next_id l.
Proof.
  unfold next_id. induction l as [| h t IH]; cbn [fold_right In]; [tauto |].
  intros [-> | H]; [lia |]. specialize (IH H). lia.
Qed.

Lemma NoDup_snoc {A : Type} (l : list A) (x : A) :
  NoDup l -> ~ In x l -> NoDup (l ++ [x]).
Proof.
  induction l as [| h t IH]; simpl; intros Hnd Hx.
  - constructor; [tauto | constructor].
  - inversion Hnd; subst. constructor.
    + rewrite in_app_iff. simpl. intuition.
    + apply IH; tauto.
Qed.

Lemma no_nul_slice_to (n : nat) (s : string) : no_nul s -> no_nul (slice_to n s).
Proof.
  unfold no_nul. revert s. induction n as [| n IH]; intros [| c s]; simpl; auto.
  intros H [E | Hin]; [apply H; now left |].
  apply (IH s); [| exact Hin]. intros Hs. apply H. now right.
Qed.

Lemma kc_ret {A : Type} (a : A) (Q : A -> Prop) :
  Q a -> keeps_catalog_M (ret a) Q.
Proof. intros H w. exists a, w. repeat split; auto. Qed.

Lemma kc_bind {A B : Type} (m : M A) (f : A -> M B) (Q1 : A -> Prop)
    (Q2 : B -> Prop) :
  keeps_catalog_M m Q1 -> (forall a, Q1 a -> keeps_catalog_M (f a) Q2) ->
  keeps_catalog_M (bind m f) Q2.
Proof.
  intros Hm Hf w. destruct (Hm w) as (a & w1 & E1 & Ha & S1 & M1).
  destruct (Hf a Ha w1) as (b & w2 & E2 & Hb & S2 & M2).
  exists b, w2. rewrite (bind_ok _ _ _ _ _ E1).
  repeat split; auto; congruence.
Qed.

Lemma kc_call {A : Type} (c : collaborator A) :
  keeps_catalog c -> keeps_catalog_M (call c) (fun _ => True).
Proof.
  intros H w. destruct (H (db w)) as (a & d' & E & S & Md).
  exists a. unfold call. rewrite E. eexists.
  split; [reflexivity |]. cbn [db]. auto.
Qed.

Lemma kc_now (C : collaborators) : keeps_catalog_M (datetime_now C) (fun _ => True).
Proof. intros w. eexists _, _. split; [reflexivity |]. cbn [db]. auto. Qed.

Lemma kc_spider_feed (m : medium) :
  keeps_catalog_M (get_spider_feed m) (fun _ => True).
Proof.
  intros w. rewrite get_spider_feed_run. cbv zeta.
  destruct (filter _ (t_feeds (db w))); eexists _, _;
    (split; [reflexivity |]); cbn [db]; auto.
Qed.

Lemma kc_stories_tags_map (sid tid : Z) :
  keeps_catalog_M (db_create_stories_tags_map sid tid) (fun _ => True).
Proof.
  intros w. run_writes. eexists _, _. split; [reflexivity |]. cbn [db]. auto.
Qed.

Lemma kc_feeds_stories_map (sid fid : Z) :
  keeps_catalog_M (db_create_feeds_stories_map sid fid) (fun _ => True).
Proof.
  intros w. run_writes. eexists _, _. split; [reflexivity |]. cbn [db]. auto.
Qed.

Lemma kc_download (C : collaborators) (s : story) (f : feed) :
  keeps_catalog_M (create_download_for_new_story C s f) (fun _ => True).
Proof.
  intros w. run_writes. eexists _, _. split; [reflexivity |]. cbn [db]. auto.
Qed.

Lemma kc_tag_sets (name : string) :
  keeps_catalog_M (db_find_or_create_tag_sets name) (fun _ => True).
Proof.
  intros w. unfold db_find_or_create_tag_sets. run_writes.
  destruct (find _ (t_tag_sets (db w))); eexists _, _;
    (split; [reflexivity |]); cbn [db]; auto.
Qed.

Lemma kc_tags (name : string) (tsid : Z) :
  keeps_catalog_M (db_find_or_create_tags name tsid) (fun _ => True).
Proof.
  intros w. unfold db_find_or_create_tags. run_writes.
  destruct (find _ (t_tags (db w))); eexists _, _;
    (split; [reflexivity |]); cbn [db]; auto.
Qed.

Lemma kc_assign (s : story) (g : GuessDateResult) (fb : option pydate) :
  keeps_catalog_M (assign_date_guess_tag s g fb) (fun _ => True).
Proof.
  unfold assign_date_guess_tag. destruct (date_guess_tag_names g fb) as [a b].
  eapply kc_bind; [apply kc_tag_sets | intros ts _].
  eapply kc_bind; [apply kc_tags | intros t _].
  apply kc_stories_tags_map.
Qed.

Lemma db_create_stories_step (sd : story_dict) (w : world) :
  exists s w',
    db_create_stories sd w = (Ok s, w')
    /\ url s = sd_url sd /\ media_id s = sd_media_id sd
    /\ stories_id s = next_id (map stories_id (t_stories (db w)))
    /\ t_stories (db w') = t_stories (db w) ++ [s]
    /\ t_media (db w') = t_media (db w).
Proof.
  run_writes. eexists _, _. split; [reflexivity |]. cbn [db]. repeat split.
Qed.

(** The tables after a run of [add_new_story] whose collaborators leave
    stories and media alone: one story more, the one returned. *)
Lemma add_new_story_catalog (C : collaborators) (url0 content : string)
    (fb : option pydate) (w : world) (m : medium) (d1 : database) :
  let u := slice_to _MAX_URL_LENGTH url0 in
  guess_medium C u (db w) = Ok (m, d1) ->
  keeps_catalog (get_spidered_tag C) ->
  (forall dl c, keeps_catalog (store_content C dl c)) ->
  exists s w',
    add_new_story C url0 content fb w = (Ok s, w')
    /\ url s = strip_nul u /\ media_id s = m_media_id m
    /\ stories_id s = next_id (map stories_id (t_stories d1))
    /\ t_stories (db w') = t_stories d1 ++ [s]
    /\ t_media (db w') = t_media d1.
Proof.
  intros u Hgm Htag Hsc. unfold add_new_story. fold u. clearbody u.
  assert (E1 : call (guess_medium C u) w
               = (Ok m, mkWorld d1 (time w) (trace w))).
  { unfold call. now rewrite Hgm. }
  rewrite (bind_ok _ _ _ _ _ E1). set (w1 := mkWorld d1 _ _).
  destruct (kc_spider_feed m w1) as (f & w2 & E2 & _ & S2 & M2).
  rewrite (bind_ok _ _ _ _ _ E2).
  destruct (kc_call _ Htag w2) as (sp & w3 & E3 & _ & S3 & M3).
  rewrite (bind_ok _ _ _ _ _ E3).
  rewrite (bind_ok _ _ _ _ _ (datetime_now_run C w3)).
  set (w4 := mkWorld (db w3) _ _).
  set (sd0 := set_sd_publish_date _ _).
  assert (Hdate : keeps_catalog_M
            (match sd_publish_date sd0 with
             | None =>
                 bind (datetime_now C)
                   (fun now => ret (set_sd_publish_date sd0
                                      (Some (PyIsoString (isoformat C now)))))
             | Some _ => ret sd0
             end)
            (fun sd => sd_url sd = strip_nul u /\ sd_media_id sd = m_media_id m)).
  { destruct (sd_publish_date sd0).
    - apply kc_ret. split; reflexivity.
    - eapply kc_bind; [apply kc_now | intros t _].
      apply kc_ret. split; reflexivity. }
  destruct (Hdate w4) as (sd & w5 & E5 & [U5 I5] & S5 & M5).
  rewrite (bind_ok _ _ _ _ _ E5).
  destruct (db_create_stories_step sd w5)
    as (s & w6 & E6 & U6 & I6 & N6 & S6 & M6).
  rewrite (bind_ok _ _ _ _ _ E6).
  assert (Htail : keeps_catalog_M
            (bind (db_create_stories_tags_map (stories_id s) (tags_id sp))
               (fun _ => bind (assign_date_guess_tag s (guess_date C u content) fb)
               (fun _ => bind (db_create_feeds_stories_map (stories_id s) (feeds_id f))
               (fun _ => bind (create_download_for_new_story C s f)
               (fun download => bind (call (store_content C download content))
               (fun _ => ret s))))))
            (fun r => r = s)).
  { eapply kc_bind; [apply kc_stories_tags_map | intros _ _].
    eapply kc_bind; [apply kc_assign | intros _ _].
    eapply kc_bind; [apply kc_feeds_stories_map | intros _ _].
    eapply kc_bind; [apply kc_download | intros dl _].
    eapply kc_bind; [apply kc_call, Hsc | intros dl' _].
    now apply kc_ret. }
  destruct (Htail w6) as (r & w7 & E7 & -> & S7 & M7).
  exists s, w7. split; [exact E7 |].
  assert (D4 : db w4 = db w3) by reflexivity.
  assert (D1 : db w1 = d1) by reflexivity.
  assert (St : t_stories (db w5) = t_stories d1) by congruence.
  assert (Md : t_media (db w5) = t_media d1) by congruence.
  split; [congruence |]. split; [congruence |]. split; [congruence |].
  split; congruence.
Qed.

(** X17: a story added for a url without null characters is found again:
    when the guessed medium is a row of [media] that is not a
    [foreign_rss_links] source, and the other collaborators leave stories
    and media alone, [add_new_story] returns a story that the variant-set
    query for the same url selects, and [get_story_match] on that url
    returns one of the selected stories instead of raising; it returns the
    added story itself when the store held no story before. *)
Theorem added_story_is_matched (C : collaborators) (url0 content : string)
    (fb : option pydate) (w : world) (m : medium) (d1 : database) :
  let u := slice_to _MAX_URL_LENGTH url0 in
  let urls := dedup String.eqb
                [u; u; normalize_url_lossy C u; normalize_url_lossy C u] in
  NoDup (map stories_id (t_stories (db w))) ->
  guess_medium C u (db w) = Ok (m, d1) ->
  t_stories d1 = t_stories (db w) ->
  In m (t_media d1) -> foreign_rss_links m = false ->
  NoDup (map m_media_id (t_media d1)) ->
  keeps_catalog (get_spidered_tag C) ->
  (forall dl c, keeps_catalog (store_content C dl c)) ->
  no_nul url0 ->
  exists s w' s2 w2,
    add_new_story C url0 content fb w = (Ok s, w')
    /\ get_story_match C url0 None w' = (Ok s2, w2)
    /\ In s (q_story_match (db w') urls)
    /\ In s2 (q_story_match (db w') urls)
    /\ (t_stories (db w) = [] -> s2 = s).
Proof.
  intros u urls Hkey Hgm Hst Hm Hfor Hmkey Htag Hsc Hnul.
  destruct (add_new_story_catalog C url0 content fb w m d1 Hgm Htag Hsc)
    as (s & w' & Hadd & Hurl & Hmid & Hid & Hs' & Hm').
  fold u in Hurl.
  assert (Eu : url s = u).
  { rewrite Hurl. apply strip_nul_clean. now apply no_nul_slice_to. }
  assert (Hin : In s (q_story_match (db w') urls)).
  { apply q_story_match_In. split; [rewrite Hs'; apply in_or_app; right; now left |].
    split; [exists m; rewrite Hm'; auto |].
    left. rewrite Eu. unfold urls. apply In_dedup.
    - intros a b. apply String.eqb_eq.
    - now left. }
  assert (Hkey' : NoDup (map stories_id (t_stories (db w')))).
  { rewrite Hs', map_app. simpl. apply NoDup_snoc; [now rewrite Hst |].
    intros H. apply next_id_above in H. lia. }
  assert (Hne : q_story_match (db w') urls <> [])
    by (intros E; rewrite E in Hin; destruct Hin).
  set (wq := mkWorld (db w') (time w') (QStoryMatch urls :: trace w')).
  assert (Hrun0 : get_story_match C url0 None w'
                  = get_preferred_story C (q_story_match (db w') urls) wq)
    by exact (get_story_match_run C url0 None w' w' false eq_refl).
  destruct (get_preferred_story_spec C (q_story_match (db w') urls) wq Hne)
    as (s2 & w2 & top & Hrun & _ & Hin2 & _).
  { apply q_story_match_consistent; [exact Hkey' | now rewrite Hm']. }
  apply stories_of_source_In in Hin2. destruct Hin2 as [Hin2 _].
  exists s, w', s2, w2.
  split; [exact Hadd |]. split; [now rewrite Hrun0 |].
  split; [exact Hin |]. split; [exact Hin2 |].
  intros Hempty. apply q_story_match_In in Hin2. destruct Hin2 as [Hin2 _].
  rewrite Hs', Hst, Hempty in Hin2. simpl in Hin2.
  destruct Hin2 as [E | []]. now symmetry.
Qed.

(** * Further runs on the sample deployment *)

Lemma db_mirror_consistent : store_consistent db_mirror [st_a; st_e].
Proof.
  constructor; simpl.
  - intros s H. exact H.
  - repeat constructor; simpl; intuition discriminate.
  - repeat constructor; simpl; intuition discriminate.
  - intros s [<- | [<- | []]]; simpl; auto.
Qed.

Lemma db_pair_consistent : store_consistent db_pair [st_a; st_b].
Proof.
  constructor; simpl.
  - intros s H. exact H.
  - repeat constructor; simpl; intuition discriminate.
  - repeat constructor; simpl; intuition discriminate.
  - intros s [<- | [<- | []]]; simpl; auto.
Qed.

(** Medium 20 is marked a duplicate, medium 10 is not: the story of
    medium 10 is returned. *)
Lemma preferred_source_is_not_dup_source_witness :
  exists s w' m,
    get_preferred_story env [st_a; st_e] (start db_mirror) = (Ok s, w')
    /\ In s [st_a; st_e]
    /\ In m [m10; m20; m30] /\ m_media_id m = media_id s
    /\ truthy (dup_media_id m) = false.
Proof.
  apply (preferred_source_is_not_dup_source env [st_a; st_e] (start db_mirror) m10).
  - exact db_mirror_consistent.
  - intros m m' [<- | [<- | [<- | []]]] [<- | [<- | [<- | []]]];
      simpl; intuition discriminate.
  - simpl. auto.
  - simpl. auto.
  - reflexivity.
Defined.

Lemma preferred_source_has_lowest_id_witness :
  exists s w',
    get_preferred_story env [st_a; st_b] (start db_pair) = (Ok s, w')
    /\ In s [st_a; st_b]
    /\ forall c, In c [st_a; st_b] -> media_id s <= media_id c.
Proof.
  apply (preferred_source_has_lowest_id env [st_a; st_b] (start db_pair)).
  - discriminate.
  - exact db_pair_consistent.
  - intros m m' [<- | [<- | []]] [<- | [<- | []]] _ _; repeat split.
Defined.

Lemma preferred_source_order_independent_witness :
  exists s s' w1 w2,
    get_preferred_story env [st_a; st_b; st_c] (start db3) = (Ok s, w1)
    /\ get_preferred_story env [st_c; st_a; st_b] (start db3) = (Ok s', w2)
    /\ media_id s = media_id s'.
Proof.
  apply (preferred_source_order_independent env [st_a; st_b; st_c]
           [st_c; st_a; st_b] (start db3)).
  - discriminate.
  - intros s. simpl. tauto.
  - exact db3_consistent.
Defined.

Lemma get_preferred_story_no_media_raises_witness :
  get_preferred_story env [st_a; st_b] (start empty_db)
  = (Raise IndexError, mkWorld empty_db 5 [QMedia [10; 30]]).
Proof.
  apply (get_preferred_story_no_media_raises env [st_a; st_b] (start empty_db)).
  - simpl. lia.
  - intros s _ [].
Defined.

Lemma db3_keys :
  NoDup (map stories_id (t_stories db3)) /\ NoDup (map m_media_id (t_media db3)).
Proof. split; repeat constructor; simpl; intuition discriminate. Qed.

Lemma get_story_match_returns_match_witness :
  let urls := ["http://example.com/a"%string] in
  exists s w',
    get_story_match env "http://example.com/a" None (start db3) = (Ok s, w')
    /\ In s [st_a; st_b; st_c]
    /\ (exists m, In m [m10; m20; m30] /\ m_media_id m = media_id s
                  /\ foreign_rss_links m = false)
    /\ (In (url s) urls \/ In (guid s) urls
        \/ exists csu, In csu [] /\ csu_stories_id csu = Some (stories_id s)
                       /\ In (csu_url csu) urls).
Proof.
  apply (get_story_match_returns_match env "http://example.com/a" None
           (start db3) (start db3) false
           (proj1 db3_keys) (proj2 db3_keys) eq_refl).
  vm_compute. discriminate.
Defined.

Lemma get_story_match_only_reads_witness :
  let run := get_story_match env "http://example.com/a"
               (Some "http://parked.biz/landing") (start db3) in
  db (snd run) = db3 /\ time (snd run) = 5
  /\ exists evs, trace (snd run) = evs ++ [].
Proof.
  cbv zeta.
  apply (get_story_match_only_reads env "http://example.com/a"
           (Some "http://parked.biz/landing") (start db3) _ _
           (surjective_pairing _)).
Defined.

Lemma get_story_match_variant_set_small_witness :
  exists urls,
    get_story_match env "http://example.com/a" (Some "http://example.com/b")
                    (start db3)
    = get_preferred_story env (q_story_match db3 urls)
        (mkWorld db3 5 [QStoryMatch urls; QIgnoreRedirect "http://example.com/"])
    /\ NoDup urls /\ (List.length urls <= 4)%nat
    /\ In "http://example.com/a"%string urls
    /\ In "http://example.com/b"%string urls.
Proof.
  destruct (get_story_match_variant_set_small env "http://example.com/a"
              (Some "http://example.com/b") (start db3)
              (mkWorld db3 5 [QIgnoreRedirect "http://example.com/"]) false
              eq_refl) as (urls & E & Hnd & Hlen & Hu & _ & Hr).
  exists urls. repeat split; auto.
  exact (proj1 (Hr eq_refl _ eq_refl)).
Defined.

(** Two urls that differ after the 1024th character are matched alike. *)
Lemma get_story_match_truncates_witness :
  long_url "x" <> long_url "y"
  /\ get_story_match env (long_url "x") None (start db3)
     = get_story_match env (long_url "y") None (start db3).
Proof.
  split.
  - intros E. apply (f_equal (String.get 1043)) in E. vm_compute in E.
    discriminate.
  - apply (get_story_match_truncates env (long_url "x") (long_url "y")).
    vm_compute. reflexivity.
Defined.

Lemma add_new_story_fields_witness :
  let run := add_new_story env "http://example.com/new" "<h1>t</h1>" None
               (start db3) in
  exists s, fst run = Ok s
            /\ url s = "http://example.com/new"%string
            /\ guid s = "http://example.com/new"%string
            /\ description s = ""%string /\ media_id s = 7.
Proof.
  cbv zeta.
  destruct (add_new_story env "http://example.com/new" "<h1>t</h1>" None
              (start db3)) as [r w'] eqn:E.
  assert (Er : exists s, r = Ok s).
  { pose proof E as E'. vm_compute in E'. injection E' as <- _.
    eexists. reflexivity. }
  destruct Er as [s ->].
  destruct (add_new_story_fields env "http://example.com/new" "<h1>t</h1>" None
              (start db3) w'
              (mkMedium 7 "http://example.com/" "example.com" None false)
              db3 s eq_refl E) as (_ & _ & _ & Hd & Hm & Hlim).
  destruct Hlim as [Hu Hg].
  - unfold no_nul. simpl. intuition discriminate.
  - apply Nat.leb_le. vm_compute. reflexivity.
  - exists s. repeat split; auto.
Defined.

Lemma add_new_story_writes_witness :
  let run := add_new_story env "http://example.com/new" "<h1>t</h1>" None
               (start db3) in
  exists evs,
    trace (snd run) = evs ++ []
    /\ count_kind KCreateStory evs = 1%nat
    /\ count_kind KCreateStoriesTagsMap evs = 2%nat
    /\ count_kind KCreateFeedsStoriesMap evs = 1%nat
    /\ count_kind KCreateDownload evs = 1%nat.
Proof.
  cbv zeta.
  destruct (add_new_story env "http://example.com/new" "<h1>t</h1>" None
              (start db3)) as [r w'] eqn:E.
  assert (Er : exists s, r = Ok s).
  { pose proof E as E'. vm_compute in E'. injection E' as <- _.
    eexists. reflexivity. }
  destruct Er as [s ->].
  destruct (add_new_story_writes env "http://example.com/new" "<h1>t</h1>" None
              (start db3) w' (Ok s) E) as (evs & T & _ & _ & _ & _ & X).
  exists evs. split; [exact T |]. exact (X s eq_refl).
Defined.

Lemma env_known_keeps_catalog :
  keeps_catalog (get_spidered_tag env_known)
  /\ (forall dl c, keeps_catalog (store_content env_known dl c)).
Proof.
  split; intros; intros d; eexists _, _; repeat split.
Qed.

(** A story added for a new url of medium 30 is matched afterwards. *)
Lemma added_story_is_matched_witness :
  let urls := ["http://example.com/new"%string] in
  exists s w' s2 w2,
    add_new_story env_known "http://example.com/new" "" None (start db3)
    = (Ok s, w')
    /\ get_story_match env_known "http://example.com/new" None w' = (Ok s2, w2)
    /\ In s (q_story_match (db w') urls)
    /\ In s2 (q_story_match (db w') urls).
Proof.
  destruct env_known_keeps_catalog as [Ht Hc].
  destruct (added_story_is_matched env_known "http://example.com/new" "" None
              (start db3) m30 db3 (proj1 db3_keys) eq_refl eq_refl)
    as (s & w' & s2 & w2 & Ha & Hm & Hs & Hs2 & _).
  - simpl. auto.
  - reflexivity.
  - exact (proj2 db3_keys).
  - exact Ht.
  - exact Hc.
  - unfold no_nul. simpl. intuition discriminate.
  - exists s, w', s2, w2. repeat split; assumption.
Defined.

(** * The sentence count and a single match *)

Lemma most_sentences_run (a b : story) (rest : list story) (w : world) :
  let l := a :: b :: rest in
  _get_story_with_most_sentences l w
  = (Ok (match q_most_sentences (db w) (map stories_id l) with
         | Some s => s
         | None => a
         end),
     mkWorld (db w) (time w) (QMostSentences (map stories_id l) :: trace w)).
Proof.
  cbv zeta. unfold _get_story_with_most_sentences.
  change (py_assert (0 <? List.length (a :: b :: rest))%nat) with (@ret unit tt).
  change (List.length (a :: b :: rest) =? 1)%nat with false. cbv iota.
  unfold bind at 1. unfold ret at 1. unfold bind at 1.
  rewrite db_query_run. cbn [db].
  destruct (q_most_sentences (db w) _); reflexivity.
Qed.

(** X18: when the variant-set query finds exactly one story,
    [get_story_match] returns that story after the story query alone: no
    media query and no sentence query follow, and no key of the store is
    relied on. *)
Theorem get_story_match_single_match (C : collaborators) (url0 : string)
    (redirect_url : option string) (w w1 : world) (ignored : bool) (s : story) :
  ignore_redirect C url0 redirect_url w = (Ok ignored, w1) ->
  let u := slice_to _MAX_URL_LENGTH url0 in
  let ru := effective_redirect ignored u redirect_url in
  let urls := dedup String.eqb
                [u; ru; normalize_url_lossy C u; normalize_url_lossy C ru] in
  q_story_match (db w1) urls = [s] ->
  get_story_match C url0 redirect_url w
  = (Ok s, mkWorld (db w1) (time w1) (QStoryMatch urls :: trace w1)).
Proof.
  intros Hi u ru urls Hq.
  rewrite (get_story_match_run C url0 redirect_url w w1 ignored Hi).
  fold u. fold ru. fold urls. rewrite Hq. reflexivity.
Qed.

Lemma get_story_match_single_match_witness :
  get_story_match env "http://other.org/a" None (start db3)
  = (Ok st_a, mkWorld db3 5 [QStoryMatch ["http://other.org/a"]]).
Proof.
  apply (get_story_match_single_match env "http://other.org/a" None
           (start db3) (start db3) false st_a eq_refl).
  vm_compute. reflexivity.
Defined.

(** * The ranking stated on the rows of the store *)

Lemma has_dup_mark_truthy (m : medium) :
  truthy (dup_media_id m) = true <-> has_dup_mark m.
Proof.
  unfold truthy, has_dup_mark. destruct (dup_media_id m) as [n |].
  - rewrite negb_true_iff, Z.eqb_neq. split.
    + intros H. now exists n.
    + intros (n' & E & H). congruence.
  - split; [discriminate | intros (n & E & _); discriminate].
Qed.

Lemma shares_domain_matches (C : collaborators) (m : medium)
    (stories : list story) :
  _url_domain_matches_medium C m (map url stories) = true
  <-> shares_domain C m stories.
Proof.
  rewrite domain_matches_exists. unfold shares_domain. split.
  - intros (u & Hu & E). apply in_map_iff in Hu.
    destruct Hu as (s & <- & Hs). now exists s.
  - intros (s & Hs & E). exists (url s). split; [now apply in_map | exact E].
Qed.

(** A key that is not above another, read on the rows. *)
Lemma key_le_ranks_before (C : collaborators) (d : database)
    (stories : list story) (m m' : medium) :
  tuple_leb (itemgetter (ranked C d stories m))
            (itemgetter (ranked C d stories m')) = true ->
  ranks_before C d stories m m'.
Proof.
  unfold ranked, rank_medium, itemgetter, ranks_before. cbn [fst snd].
  cbn [is_dup_target is_not_dup_source matches_domain rm_row].
  pose proof (sql_is_dup_target_true d m) as T.
  pose proof (sql_is_dup_target_true d m') as T'.
  pose proof (has_dup_mark_truthy m) as N.
  pose proof (has_dup_mark_truthy m') as N'.
  pose proof (shares_domain_matches C m stories) as D.
  pose proof (shares_domain_matches C m' stories) as D'.
  fold (pointed_at d m) in T. fold (pointed_at d m') in T'.
  assert (Ft : ~ false = true) by discriminate.
  assert (Tt : true = true) by reflexivity.
  destruct (sql_is_dup_target d m), (sql_is_dup_target d m'),
           (truthy (dup_media_id m)), (truthy (dup_media_id m')),
           (_url_domain_matches_medium C m (map url stories)),
           (_url_domain_matches_medium C m' (map url stories));
    unfold tuple_leb; cbn [Z.ltb Z.compare]; intros H;
    try discriminate; try apply Z.leb_le in H; tauto.
Qed.

(** The story returned belongs to a source that the priority order puts at
    or before the source of every candidate. *)
Lemma preferred_source_ranks_first (C : collaborators) (stories : list story)
    (w : world) :
  stories <> [] ->
  store_consistent (db w) stories ->
  exists s w' m,
    get_preferred_story C stories w = (Ok s, w')
    /\ In s stories
    /\ In m (t_media (db w)) /\ m_media_id m = media_id s
    /\ forall m', In m' (t_media (db w)) ->
         In (m_media_id m') (map media_id stories) ->
         ranks_before C (db w) stories m m'.
Proof.
  intros Hne Hc.
  destruct (preferred_source_least C stories w Hne Hc)
    as (s & w' & m & Hrun & Hin & Hm & Hid & Hleast).
  exists s, w', m. repeat split; auto.
  intros m' Hm' Hid'. apply key_le_ranks_before. now apply Hleast.
Qed.

(** C10 as stated fails: stories 2 and 3 are rows of the store, no row of
    [media] exists for their source, and [get_preferred_story] returns no
    story but raises [IndexError]. *)
Lemma preferred_story_without_media_row :
  [st_b; st_c] <> []
  /\ (forall s, In s [st_b; st_c] -> In s (t_stories db_orphans))
  /\ fst (get_preferred_story env [st_b; st_c] (start db_orphans))
     = Raise IndexError.
Proof.
  split; [discriminate |]. split; [intros s H; exact H | reflexivity].
Qed.

(** C10 (as amended): on a non-empty list of candidates that are rows of a
    store with unique story and media ids and a media row for the source of
    every candidate, [get_preferred_story] returns one of the candidates, so
    its [stories_id] is a candidate's, and its [media_id] is that of the
    top-ranked source: the source that the priority order (duplication
    target, no duplicate mark, domain match, lower id) puts at or before the
    source of every candidate. *)
Theorem get_preferred_story_returns_candidate (C : collaborators)
    (stories : list story) (w : world) :
  stories <> [] ->
  store_consistent (db w) stories ->
  exists s w' m,
    get_preferred_story C stories w = (Ok s, w')
    /\ In s stories
    /\ In (stories_id s) (map stories_id stories)
    /\ In m (t_media (db w)) /\ m_media_id m = media_id s
    /\ (forall m', In m' (t_media (db w)) ->
          In (m_media_id m') (map media_id stories) ->
          ranks_before C (db w) stories m m')
    /\ exists top,
         top_ranked_source C (db w) stories = Some top /\ rm_row top = m.
Proof.
  intros Hne Hc.
  destruct (preferred_source_ranks_first C stories w Hne Hc)
    as (s & w' & m & Hrun & Hin & Hm & Hid & Hfirst).
  exists s, w', m. split; [exact Hrun |]. split; [exact Hin |].
  split; [now apply in_map |]. split; [exact Hm |]. split; [exact Hid |].
  split; [exact Hfirst |].
  destruct (get_preferred_story_spec C stories w Hne Hc)
    as (s1 & w1 & top & Hrun1 & Htop & Hin1 & _).
  rewrite Hrun in Hrun1. inversion Hrun1; subst s1 w1.
  apply stories_of_source_In in Hin1. destruct Hin1 as [_ Hmid].
  exists top. split; [exact Htop |].
  destruct (top_ranked_least C _ _ _ Htop) as [(m1 & -> & Hm1 & _) _].
  simpl in Hmid |- *.
  apply (NoDup_map_inj m_media_id (t_media (db w))); auto.
  - apply Hc.
  - congruence.
Qed.

(** Medium 30 is pointed at by medium 20 and medium 10 by no row: the story
    returned is of medium 30, which ranks before medium 10. *)
Lemma get_preferred_story_returns_candidate_witness :
  exists s w' m,
    get_preferred_story env [st_a; st_b; st_c] (start db3) = (Ok s, w')
    /\ In s [st_a; st_b; st_c]
    /\ In (stories_id s) [1; 2; 3]
    /\ In m [m10; m20; m30] /\ m_media_id m = media_id s
    /\ ranks_before env db3 [st_a; st_b; st_c] m m10.
Proof.
  destruct (get_preferred_story_returns_candidate env [st_a; st_b; st_c]
              (start db3)) as (s & w' & m & Hrun & Hin & Hid & Hm & Hmid & Hr & _).
  - discriminate.
  - exact db3_consistent.
  - exists s, w', m. repeat split; auto.
    apply Hr; simpl; auto.
Defined.

(** C4: when the sources of the candidates tie on being a duplication
    target and on being marked a duplicate themselves, and the url of the
    source of some candidate has the distinctive domain of a candidate's url,
    [get_preferred_story] returns a story of a source whose url has the
    distinctive domain of a candidate's url, not of a source without such a
    match. *)
Theorem domain_matching_source_preferred (C : collaborators)
    (stories : list story) (w : world) (m0 : medium) :
  stories <> [] ->
  store_consistent (db w) stories ->
  (forall m m', In m (t_media (db w)) -> In m' (t_media (db w)) ->
     In (m_media_id m) (map media_id stories) ->
     In (m_media_id m') (map media_id stories) ->
     (pointed_at (db w) m <-> pointed_at (db w) m')
     /\ (has_dup_mark m <-> has_dup_mark m')) ->
  In m0 (t_media (db w)) ->
  In (m_media_id m0) (map media_id stories) ->
  (exists s0, In s0 stories
     /\ get_url_distinctive_domain C (url s0)
        = get_url_distinctive_domain C (m_url m0)) ->
  exists s w' m s1,
    get_preferred_story C stories w = (Ok s, w')
    /\ In s stories
    /\ In m (t_media (db w)) /\ m_media_id m = media_id s
    /\ In s1 stories
    /\ get_url_distinctive_domain C (url s1)
       = get_url_distinctive_domain C (m_url m).
Proof.
  intros Hne Hc Htie Hm0 Hid0 Hdom0.
  destruct (preferred_source_ranks_first C stories w Hne Hc)
    as (s & w' & m & Hrun & Hin & Hm & Hid & Hfirst).
  assert (Hidm : In (m_media_id m) (map media_id stories))
    by (rewrite Hid; now apply in_map).
  specialize (Hfirst m0 Hm0 Hid0).
  destruct (Htie m m0 Hm Hm0 Hidm Hid0) as [T N].
  fold (shares_domain C m0 stories) in Hdom0.
  assert (D : shares_domain C m stories).
  { unfold ranks_before in Hfirst. tauto. }
  destruct D as (s1 & Hs1 & E1).
  exists s, w', m, s1. repeat split; auto.
Qed.

Lemma db_plain_no_marks (m : medium) :
  In m (t_media db_plain) ->
  ~ pointed_at db_plain m /\ ~ has_dup_mark m.
Proof.
  intros Hm. split.
  - intros (d' & [<- | [<- | []]] & E); discriminate.
  - destruct Hm as [<- | [<- | []]]; intros (n & E & _); discriminate.
Qed.

(** Neither medium 10 nor medium 30 has a duplicate mark; the url of
    medium 30 has the domain of the candidates' urls, that of medium 10 has
    not: the story of medium 30 is returned. *)
Lemma domain_matching_source_preferred_witness :
  exists s w' m s1,
    get_preferred_story env [st_d; st_b] (start db_plain) = (Ok s, w')
    /\ In s [st_d; st_b]
    /\ In m [m10; m30] /\ m_media_id m = media_id s
    /\ In s1 [st_d; st_b]
    /\ domain_of (url s1) = domain_of (m_url m).
Proof.
  apply (domain_matching_source_preferred env [st_d; st_b] (start db_plain) m30).
  - discriminate.
  - exact db_plain_consistent.
  - intros m m' Hm Hm' _ _.
    pose proof (db_plain_no_marks m Hm). pose proof (db_plain_no_marks m' Hm').
    tauto.
  - simpl. auto.
  - simpl. auto.
  - exists st_b. split; [simpl; auto | reflexivity].
Defined.

(** X3: whenever some row of [media] points at the source of some candidate
    with its [dup_media_id], the story returned belongs to a source that a
    row of [media] points at, whatever the other attributes and the media
    ids are. *)
Theorem preferred_source_is_dup_target (C : collaborators)
    (stories : list story) (w : world) (m0 d0 : medium) :
  store_consistent (db w) stories ->
  In m0 (t_media (db w)) ->
  In (m_media_id m0) (map media_id stories) ->
  In d0 (t_media (db w)) -> dup_media_id d0 = Some (m_media_id m0) ->
  exists s w' m d',
    get_preferred_story C stories w = (Ok s, w')
    /\ In s stories
    /\ In m (t_media (db w)) /\ m_media_id m = media_id s
    /\ In d' (t_media (db w)) /\ dup_media_id d' = Some (media_id s).
Proof.
  intros Hc Hm0 Hid0 Hd0 Ed0.
  assert (Hne : stories <> []) by (intros ->; destruct Hid0).
  destruct (preferred_source_ranks_first C stories w Hne Hc)
    as (s & w' & m & Hrun & Hin & Hm & Hid & Hfirst).
  specialize (Hfirst m0 Hm0 Hid0).
  assert (P0 : pointed_at (db w) m0) by (exists d0; auto).
  assert (P : pointed_at (db w) m).
  { unfold ranks_before in Hfirst. tauto. }
  destruct P as (d' & Hd' & Ed').
  exists s, w', m, d'. repeat split; auto. congruence.
Qed.

(** Medium 20 points at medium 30: the story returned is of medium 30. *)
Lemma preferred_source_is_dup_target_witness :
  exists s w' m d',
    get_preferred_story env [st_a; st_b; st_c] (start db3) = (Ok s, w')
    /\ In s [st_a; st_b; st_c]
    /\ In m [m10; m20; m30] /\ m_media_id m = media_id s
    /\ In d' [m10; m20; m30] /\ dup_media_id d' = Some (media_id s).
Proof.
  apply (preferred_source_is_dup_target env [st_a; st_b; st_c] (start db3)
           m30 m20).
  - exact db3_consistent.
  - simpl. auto.
  - simpl. auto.
  - simpl. auto.
  - reflexivity.
Defined.

(** * A strict maximum of the sentence counts *)

(** X14: when one candidate has strictly more sentences than every other
    one, in a store with unique story ids of which the candidates are rows,
    [_get_story_with_most_sentences] on two or more candidates returns that
    candidate, in whatever order the candidates are given; no tie has to be
    broken. *)
Theorem most_sentences_strict_maximum (l l' : list story) (w : world)
    (c : story) :
  (2 <= List.length l)%nat -> (2 <= List.length l')%nat ->
  (forall x, In x l <-> In x l') ->
  (forall x, In x l -> In x (t_stories (db w))) ->
  NoDup (map stories_id (t_stories (db w))) ->
  In c l ->
  (forall x, In x l -> x <> c -> sentences_of (db w) x < sentences_of (db w) c) ->
  fst (_get_story_with_most_sentences l w) = Ok c
  /\ fst (_get_story_with_most_sentences l' w) = Ok c.
Proof.
  intros Hl Hl' Hmem Hrows Hkey Hc Hstrict.
  assert (Honly : forall x, In x l ->
                    sentences_of (db w) c <= sentences_of (db w) x -> x = c).
  { intros x Hx Hle. destruct (story_eq_dec x c) as [E | N]; [exact E |].
    specialize (Hstrict x Hx N). lia. }
  destruct l as [| a [| b rest]]; simpl in Hl; try lia.
  destruct l' as [| a' [| b' rest']]; simpl in Hl'; try lia.
  rewrite !most_sentences_run. cbv zeta. cbn [fst].
  rewrite <- (q_most_sentences_mem_ext (db w) (map stories_id (a :: b :: rest))
                (map stories_id (a' :: b' :: rest')))
    by (now apply In_map_ext).
  unfold q_most_sentences, hash.
  destruct (q_top_sentence_ids_spec (db w) (map stories_id (a :: b :: rest)))
    as [[E Hzero] | (top & E & Hin & _ & Hmax)]; rewrite E.
  - assert (F : filter (fun s => mem_Z (stories_id s) []) (t_stories (db w)) = []).
    { clear. induction (t_stories (db w)); simpl; auto. }
    rewrite F. cbn [hd_error].
    assert (Z0 : forall x, In x (a :: b :: rest) -> x = c).
    { intros x Hx. apply Honly; [exact Hx |].
      unfold sentences_of.
      rewrite (Hzero (stories_id c) (in_map stories_id _ _ Hc)).
      rewrite (Hzero (stories_id x) (in_map stories_id _ _ Hx)). lia. }
    split; f_equal; apply Z0; [now left |].
    apply Hmem. now left.
  - apply in_map_iff in Hin. destruct Hin as (c0 & <- & Hc0).
    rewrite (hd_filter_key stories_id _ c0 Hkey (Hrows _ Hc0)).
    assert (c0 = c).
    { apply Honly; [exact Hc0 |]. apply Hmax. now apply in_map. }
    subst c0. split; reflexivity.
Qed.

(** Story 3 has two sentences and story 2 one: story 3 is returned for
    both orders. *)
Lemma most_sentences_strict_maximum_witness :
  fst (_get_story_with_most_sentences [st_b; st_c] (start db3)) = Ok st_c
  /\ fst (_get_story_with_most_sentences [st_c; st_b] (start db3)) = Ok st_c.
Proof.
  apply (most_sentences_strict_maximum [st_b; st_c] [st_c; st_b] (start db3) st_c).
  - simpl. lia.
  - simpl. lia.
  - intros x. simpl. tauto.
  - intros x [<- | [<- | []]]; simpl; auto.
  - exact (proj1 db3_keys).
  - simpl. auto.
  - intros x [<- | [<- | []]] N; [reflexivity | congruence].
Defined.
